(** * DoorController: a non-blocking admission gate around a timed LED actuator

    Shallow embedding of [backend/core/doorController.py]:
    - the controller object lives in a heap and is reached through its address;
    - the effects of a method (attribute updates, log records, device writes,
      sleeps, lock operations) are threaded through a state-and-exception
      monad, every effect leaving an event in a chronological trace;
    - what the outside world decides (whether the sysfs file exists, whether
      a write or a sleep is cut short by an exception) is read from an
      environment, indexed by the position of the operation in the trace;
    - concurrent callers of [open] are an interleaving of atomic steps of the
      method body over the shared heap. *)

From Stdlib Require Import ZArith Lia DecimalString DecimalPos DecimalZ.
From stdpp Require Import base option list strings.

Open Scope Z_scope.

(** ** Python values and exceptions *)

(** What a call evaluates to: [open] and [_set_led] only ever produce [None],
    a boolean is what a caller testing the result would need. *)
Inductive pyval :=
  | PyNone
  | PyBool (b : bool).

(** The exceptions that can reach this module. [KeyboardInterrupt] and
    [SystemExit] derive from [BaseException] only; the others derive from
    [Exception], and [PermissionError] is a subclass of [OSError]. *)
Inductive exn :=
  | PermissionError
  | OSError
  | ValueError
  | AttributeError
  | RuntimeError
  | KeyboardInterrupt
  | SystemExit.

Definition is_PermissionError (e : exn) : bool :=
  match e with PermissionError => true | _ => false end.

Definition is_Exception (e : exn) : bool :=
  match e with KeyboardInterrupt | SystemExit => false | _ => true end.

Inductive result (A : Type) :=
  | Ret (a : A)
  | Raise (e : exn).
Arguments Ret {A} a.
Arguments Raise {A} e.

(** ** Data model *)

(** [pathlib.Path], kept as the string it was built from. *)
Inductive Path := MkPath (s : string).

(** [threading.Lock()]: a binary lock, created unlocked. *)
Record Lock := mkLock { locked : bool }.

Definition new_Lock : Lock := mkLock false.

(** The instance attributes set by [__init__]. *)
Record DoorController := mkDoor {
  _initialized : bool;
  status : bool;
  _door_lock : Lock;
  led_path : option Path
}.

(** A heap cell: [None] is an object fresh out of [__new__], which has no
    instance attribute yet ([hasattr(self, "_initialized")] is false). *)
Definition object := option DoorController.

Definition addr := nat.

(** [backend.config], which this repository imports its two constants from. *)
Record Config := mkConfig {
  DOOR_OPEN_DURATION : Z;
  LED_SYSFS_PATH : option string
}.

(** Truth value of [LED_SYSFS_PATH]: [None] and the empty string are false. *)
Definition truthy (o : option string) : option string :=
  match o with
  | Some EmptyString => None
  | other => other
  end.

Inductive level := DEBUG | INFO | WARNING | ERROR.

(** One constructor per [logging] call of the module. *)
Inductive message :=
  | MsgLedFound (p : Path)
  | MsgLedOffOnInit
  | MsgLedNotFound (p : Path)
  | MsgLedDisabled
  | MsgSimulating
  | MsgBrightness (b : Z)
  | MsgPermissionDenied (p : Path)
  | MsgLedFailed (e : exn)
  | MsgBusy
  | MsgOpen
  | MsgClose.

Inductive event :=
  | EvLog (l : level) (m : message)
  | EvWrite (p : Path) (data : string) (fault : option exn)
  | EvSleep (d : Z) (fault : option exn)
  | EvAcquire (self : addr) (won : bool)
  | EvRelease (self : addr).

Record World := mkWorld {
  heap : list object;
  _door_controller_instance : option addr;
  trace : list event
}.

(** What the surroundings decide. The natural number is the length of the
    trace when the operation starts, so an environment fixes the fate of
    every operation of a run. [path_exists] is the answer of
    [Path.exists()]; a probe that itself raises (a path the process may not
    traverse, or one that is too long) is not covered. *)
Record Env := mkEnv {
  path_exists : Path -> bool;
  write_fault : nat -> option exn;
  sleep_fault : nat -> option exn
}.

(** ** The monad of method bodies *)

Definition M (A : Type) : Type := World -> result A * World.

Definition M_ret {A} (a : A) : M A := fun w => (Ret a, w).

Definition M_bind {A B} (f : A -> M B) (m : M A) : M B :=
  fun w =>
    match m w with
    | (Ret a, w1) => f a w1
    | (Raise e, w1) => (Raise e, w1)
    end.

#[global] Instance M_mret : MRet M := @M_ret.
#[global] Instance M_mbind : MBind M := @M_bind.

Definition raise {A} (e : exn) : M A := fun w => (Raise e, w).

(** [try: body  except ...: handler]; the handler answers [None] for an
    exception no clause matches, which then keeps propagating. *)
Definition try_except {A} (body : M A) (handler : exn -> option (M A)) : M A :=
  fun w =>
    match body w with
    | (Ret a, w1) => (Ret a, w1)
    | (Raise e, w1) =>
        match handler e with
        | Some h => h w1
        | None => (Raise e, w1)
        end
    end.

(** [try: body  finally: cleanup]. *)
Definition try_finally {A} (body : M A) (cleanup : M unit) : M A :=
  fun w =>
    match body w with
    | (r, w1) =>
        match cleanup w1 with
        | (Ret _, w2) => (r, w2)
        | (Raise e, w2) => (Raise e, w2)
        end
    end.

Definition emit (ev : event) : M unit :=
  fun w => (Ret tt, mkWorld (heap w) (_door_controller_instance w) (trace w ++ [ev])).

Definition log (l : level) (m : message) : M unit := emit (EvLog l m).

(** Attribute access on [self]; an object without attributes raises. *)
Definition load (self : addr) : M DoorController :=
  fun w =>
    match heap w !! self with
    | Some (Some d) => (Ret d, w)
    | _ => (Raise AttributeError, w)
    end.

Definition store (self : addr) (d : DoorController) : M unit :=
  fun w => (Ret tt, mkWorld (<[self := Some d]> (heap w)) (_door_controller_instance w) (trace w)).

Definition set_status (self : addr) (b : bool) : M unit :=
  d ← load self;
  store self (mkDoor (_initialized d) b (_door_lock d) (led_path d)).

Definition set_led_path (self : addr) (p : option Path) : M unit :=
  d ← load self;
  store self (mkDoor (_initialized d) (status d) (_door_lock d) p).

Definition set_lock (self : addr) (l : Lock) : M unit :=
  d ← load self;
  store self (mkDoor (_initialized d) (status d) l (led_path d)).

(** [str] of an integer. *)
Definition py_str (z : Z) : string := NilZero.string_of_int (Z.to_int z).

(** [int] of a decimal numeral, as a reader of the sysfs file parses it. *)
Definition py_int (s : string) : option Z := option_map Z.of_int (NilZero.int_of_string s).

Section Methods.

Context (cfg : Config) (env : Env).

(** [with open(path, 'w') as f: f.write(data)], one device operation. *)
Definition write_file (p : Path) (data : string) : M unit :=
  fun w =>
    let fault := write_fault env (length (trace w)) in
    match emit (EvWrite p data fault) w with
    | (_, w1) =>
        match fault with
        | None => (Ret tt, w1)
        | Some e => (Raise e, w1)
        end
    end.

(** [time.sleep(d)]. *)
Definition sleep (d : Z) : M unit :=
  fun w =>
    let fault := sleep_fault env (length (trace w)) in
    match emit (EvSleep d fault) w with
    | (_, w1) =>
        match fault with
        | None => (Ret tt, w1)
        | Some e => (Raise e, w1)
        end
    end.

(** [self._door_lock.acquire(blocking=False)]. *)
Definition acquire_nonblocking (self : addr) : M bool :=
  d ← load self;
  if locked (_door_lock d)
  then emit (EvAcquire self false);; mret false
  else set_lock self (mkLock true);; emit (EvAcquire self true);; mret true.

(** [self._door_lock.release()]; releasing an unlocked lock is an error. *)
Definition release (self : addr) : M unit :=
  d ← load self;
  if locked (_door_lock d)
  then set_lock self (mkLock false);; emit (EvRelease self)
  else raise RuntimeError.

(** [DoorController._set_led] *)
Definition _set_led (self : addr) (brightness : Z) : M pyval :=
  d ← load self;
  match led_path d with
  | None =>
      log DEBUG MsgSimulating;;
      mret PyNone
  | Some p =>
      try_except
        (let brightness := Z.max 0 (Z.min 255 brightness) in
         write_file p (py_str brightness);;
         log INFO (MsgBrightness brightness);;
         mret PyNone)
        (fun e =>
           if is_PermissionError e then
             Some (log ERROR (MsgPermissionDenied p);; mret PyNone)
           else if is_Exception e then
             Some (log ERROR (MsgLedFailed e);; mret PyNone)
           else None)
  end.

(** [DoorController.__init__] *)
Definition __init__ (self : addr) (status0 : bool) : M pyval :=
  fun w =>
    match heap w !! self with
    | None => (Raise AttributeError, w)
    | Some (Some _) => (Ret PyNone, w)
    | Some None =>
        let path := option_map MkPath (truthy (LED_SYSFS_PATH cfg)) in
        (store self (mkDoor true status0 new_Lock path);;
         match path with
         | Some p =>
             if path_exists env p then
               log INFO (MsgLedFound p);;
               _set_led self 0;;
               log INFO MsgLedOffOnInit;;
               mret PyNone
             else
               log WARNING (MsgLedNotFound p);;
               set_led_path self None;;
               mret PyNone
         | None =>
             log INFO MsgLedDisabled;;
             mret PyNone
         end) w
    end.

(** [DoorController.open] *)
Definition open (self : addr) : M pyval :=
  won ← acquire_nonblocking self;
  if negb won then
    log INFO MsgBusy;;
    mret PyNone
  else
    try_finally
      (log INFO MsgOpen;;
       _set_led self 255;;
       set_status self true;;
       sleep (DOOR_OPEN_DURATION cfg);;
       log INFO MsgClose;;
       _set_led self 0;;
       set_status self false)
      (release self);;
    mret PyNone.

(** [DoorController(status)]: allocate, then initialise. *)
Definition new_DoorController (status0 : bool) : M addr :=
  fun w =>
    let self := length (heap w) in
    let w1 := mkWorld (heap w ++ [None]) (_door_controller_instance w) (trace w) in
    match __init__ self status0 w1 with
    | (Ret _, w2) => (Ret self, w2)
    | (Raise e, w2) => (Raise e, w2)
    end.

Definition set_instance (a : addr) : M unit :=
  fun w => (Ret tt, mkWorld (heap w) (Some a) (trace w)).

(** [get_door_controller] *)
Definition get_door_controller : M addr :=
  fun w =>
    match _door_controller_instance w with
    | None =>
        (a ← new_DoorController false;
         set_instance a;;
         mret a) w
    | Some a => (Ret a, w)
    end.

End Methods.

(** ** Observations on traces *)

(** The device writes of a trace, in order: file and text written. A write
    that failed is still a write operation that was performed. *)
Definition writes (t : list event) : list (Path * string) :=
  omap (fun ev => match ev with EvWrite p data _ => Some (p, data) | _ => None end) t.

Definition sleeps (t : list event) : list Z :=
  omap (fun ev => match ev with EvSleep d _ => Some d | _ => None end) t.

Definition is_lock_event (ev : event) : bool :=
  match ev with EvAcquire _ _ | EvRelease _ => true | _ => false end.

Definition is_admission (ev : event) : bool :=
  match ev with EvAcquire _ true => true | _ => false end.

Definition is_release (ev : event) : bool :=
  match ev with EvRelease _ => true | _ => false end.

Definition admissions (t : list event) : nat := length (filter (fun ev => is_admission ev = true) t).

Definition releases (t : list event) : nat := length (filter (fun ev => is_release ev = true) t).

(** A trace with the log records dropped and the fate of each write
    forgotten: what the controller did, not how the device answered. *)
Definition skeleton (t : list event) : list event :=
  omap (fun ev =>
          match ev with
          | EvLog _ _ => None
          | EvWrite p data _ => Some (EvWrite p data None)
          | other => Some other
          end) t.

(** An environment that differs from [env] only in that no write fails. *)
Definition healthy_device (env : Env) : Env :=
  mkEnv (path_exists env) (fun _ => None) (sleep_fault env).

(** No operation is cut short by an exception that propagates. *)
Definition fault_free (env : Env) : Prop :=
  (forall n e, write_fault env n = Some e -> is_Exception e = true) /\
  (forall n, sleep_fault env n = None).

(** ** Worlds focused on one controller *)

(** The world [w] with the object at [self] replaced by [d] and the events
    [evs] appended: the shape of every world a method call goes through. *)
Definition focus (w : World) (self : addr) (d : DoorController) (evs : list event) : World :=
  mkWorld (<[self := Some d]> (heap w)) (_door_controller_instance w) (trace w ++ evs).

Definition outcome (fault : option exn) : result unit :=
  match fault with
  | None => Ret tt
  | Some e => Raise e
  end.

Definition unlocked (d : DoorController) (st : bool) : DoorController :=
  mkDoor (_initialized d) st (mkLock false) (led_path d).

(** The result and the events of one [_set_led] call that starts when the
    trace is [t], on a controller whose [led_path] is [lp]. *)
Definition led_events (env : Env) (t : list event) (lp : option Path) (b : Z)
  : result pyval * list event :=
  match lp with
  | None => (Ret PyNone, [EvLog DEBUG MsgSimulating])
  | Some p =>
      let c := Z.max 0 (Z.min 255 b) in
      let fault := write_fault env (length t) in
      let wr := EvWrite p (py_str c) fault in
      match fault with
      | None => (Ret PyNone, [wr; EvLog INFO (MsgBrightness c)])
      | Some e =>
          if is_PermissionError e then (Ret PyNone, [wr; EvLog ERROR (MsgPermissionDenied p)])
          else if is_Exception e then (Ret PyNone, [wr; EvLog ERROR (MsgLedFailed e)])
          else (Raise e, [wr])
      end
  end.

(** How many events a [_set_led] call that returns adds, and what it does
    to the device, whatever the device answers. *)
Definition led_len (lp : option Path) : nat :=
  match lp with
  | None => 1%nat
  | Some _ => 2%nat
  end.

Definition led_skeleton (lp : option Path) (b : Z) : list event :=
  match lp with
  | None => []
  | Some p => [EvWrite p (py_str (Z.max 0 (Z.min 255 b))) None]
  end.

(** The four ways out of the [try] block of [open], entered when the trace
    is [t] with status [st0]: the result of the block, the status it leaves
    and the events it adds. *)
Inductive exit_path (cfg : Config) (env : Env) (t : list event) (lp : option Path) (st0 : bool)
  : result pyval -> bool -> list event -> Prop :=
  | exit_assert_fault e ev1 :
      led_events env (t ++ [EvLog INFO MsgOpen]) lp 255 = (Raise e, ev1) ->
      exit_path cfg env t lp st0 (Raise e) st0 (EvLog INFO MsgOpen :: ev1)
  | exit_sleep_fault v e ev1 :
      led_events env (t ++ [EvLog INFO MsgOpen]) lp 255 = (Ret v, ev1) ->
      sleep_fault env (length (t ++ EvLog INFO MsgOpen :: ev1)) = Some e ->
      exit_path cfg env t lp st0 (Raise e) true
        (EvLog INFO MsgOpen :: ev1 ++ [EvSleep (DOOR_OPEN_DURATION cfg) (Some e)])
  | exit_deassert_fault v e ev1 ev2 :
      led_events env (t ++ [EvLog INFO MsgOpen]) lp 255 = (Ret v, ev1) ->
      sleep_fault env (length (t ++ EvLog INFO MsgOpen :: ev1)) = None ->
      led_events env
        (t ++ EvLog INFO MsgOpen :: ev1 ++ [EvSleep (DOOR_OPEN_DURATION cfg) None; EvLog INFO MsgClose])
        lp 0 = (Raise e, ev2) ->
      exit_path cfg env t lp st0 (Raise e) true
        (EvLog INFO MsgOpen :: ev1 ++ EvSleep (DOOR_OPEN_DURATION cfg) None :: EvLog INFO MsgClose :: ev2)
  | exit_normal v v' ev1 ev2 :
      led_events env (t ++ [EvLog INFO MsgOpen]) lp 255 = (Ret v, ev1) ->
      sleep_fault env (length (t ++ EvLog INFO MsgOpen :: ev1)) = None ->
      led_events env
        (t ++ EvLog INFO MsgOpen :: ev1 ++ [EvSleep (DOOR_OPEN_DURATION cfg) None; EvLog INFO MsgClose])
        lp 0 = (Ret v', ev2) ->
      exit_path cfg env t lp st0 (Ret PyNone) false
        (EvLog INFO MsgOpen :: ev1 ++ EvSleep (DOOR_OPEN_DURATION cfg) None :: EvLog INFO MsgClose :: ev2).

(** ** Concurrent callers of [open] *)

(** Where a thread stands in the body of [open]. *)
Inductive pc :=
  | AtAcquire                       (* about to try the lock *)
  | AtAssert                        (* lock held, about to switch the LED on *)
  | AtSetOpen                       (* about to set [status = True] *)
  | AtSleep                         (* about to sleep *)
  | AtDeassert                      (* about to switch the LED off *)
  | AtSetClosed                     (* about to set [status = False] *)
  | AtFinally (pending : option exn) (* in the [finally] clause *)
  | AtBusyReturn                    (* returned: the lock was taken *)
  | AtExit (r : result pyval).      (* left the [try] statement *)

(** Between a won [acquire] and the [release]. *)
Definition in_section (p : pc) : bool :=
  match p with
  | AtAssert | AtSetOpen | AtSleep | AtDeassert | AtSetClosed | AtFinally _ => true
  | _ => false
  end.

Definition finished (p : pc) : bool :=
  match p with
  | AtBusyReturn | AtExit _ => true
  | _ => false
  end.

Definition is_busy_return (p : pc) : bool :=
  match p with AtBusyReturn => true | _ => false end.

Definition is_exit (p : pc) : bool :=
  match p with AtExit _ => true | _ => false end.

Definition is_at_acquire (p : pc) : bool :=
  match p with AtAcquire => true | _ => false end.

(** Status is [True] from the assignment after the assert write to the
    assignment after the de-assert write. *)
Definition asserted (p : pc) : bool :=
  match p with
  | AtSleep | AtDeassert | AtSetClosed => true
  | _ => false
  end.

(** An activation that an exception cut short, or is cutting short. *)
Definition faulted (p : pc) : bool :=
  match p with
  | AtFinally (Some _) | AtExit (Raise _) => true
  | _ => false
  end.

Fixpoint count (f : pc -> bool) (ps : list pc) : nat :=
  match ps with
  | [] => 0
  | p :: ps' => ((if f p then 1 else 0) + count f ps')%nat
  end.

(** Inside the [try] block an exception sends the thread to [finally]. *)
Definition advance {A} (m : M A) (next : pc) (w : World) : pc * World :=
  match m w with
  | (Ret _, w1) => (next, w1)
  | (Raise e, w1) => (AtFinally (Some e), w1)
  end.

Section Threads.

Context (cfg : Config) (env : Env) (self : addr).

(** One atomic step of a thread running [open self]. *)
Definition thread_step (p : pc) (w : World) : pc * World :=
  match p with
  | AtAcquire =>
      match acquire_nonblocking self w with
      | (Ret true, w1) => (AtAssert, w1)
      | (Ret false, w1) => (AtBusyReturn, snd (log INFO MsgBusy w1))
      | (Raise e, w1) => (AtExit (Raise e), w1)
      end
  | AtAssert => advance (log INFO MsgOpen;; _set_led env self 255) AtSetOpen w
  | AtSetOpen => advance (set_status self true) AtSleep w
  | AtSleep => advance (sleep env (DOOR_OPEN_DURATION cfg)) AtDeassert w
  | AtDeassert => advance (log INFO MsgClose;; _set_led env self 0) AtSetClosed w
  | AtSetClosed => advance (set_status self false) (AtFinally None) w
  | AtFinally pending =>
      match release self w with
      | (Ret _, w1) =>
          (AtExit (match pending with None => Ret PyNone | Some e => Raise e end), w1)
      | (Raise e, w1) => (AtExit (Raise e), w1)
      end
  | AtBusyReturn | AtExit _ => (p, w)
  end.

(** A thread left alone for [n] steps. *)
Fixpoint run_alone (n : nat) (p : pc) (w : World) : pc * World :=
  match n with
  | O => (p, w)
  | S n' => let '(p1, w1) := thread_step p w in run_alone n' p1 w1
  end.

(** The scheduler lets thread [i] take its next step. *)
Definition sched_step (st : list pc * World) (i : nat) : list pc * World :=
  match fst st !! i with
  | Some p => let '(p1, w1) := thread_step p (snd st) in (<[i := p1]> (fst st), w1)
  | None => st
  end.

Definition run_schedule (sched : list nat) (st : list pc * World) : list pc * World :=
  fold_left sched_step sched st.

(** [n] callers that have all just called [open]. *)
Definition callers (n : nat) (w : World) : list pc * World := (replicate n AtAcquire, w).

End Threads.

(** Past a won [acquire], whether or not the lock was released since. *)
Definition admitted (p : pc) : bool := in_section p || is_exit p.

(** The device writes and sleeps of a trace, the fate of a write forgotten. *)
Definition activity (t : list event) : list event :=
  omap (fun ev =>
          match ev with
          | EvWrite p data _ => Some (EvWrite p data None)
          | EvSleep d f => Some (EvSleep d f)
          | _ => None
          end) t.

(** What a thread standing at [p] has done to the device so far, when no
    exception cut it short. *)
Definition progress (cfg : Config) (lp : option Path) (p : pc) : list event :=
  match p with
  | AtSetOpen | AtSleep => led_skeleton lp 255
  | AtDeassert => led_skeleton lp 255 ++ [EvSleep (DOOR_OPEN_DURATION cfg) None]
  | AtSetClosed | AtFinally _ | AtExit _ =>
      led_skeleton lp 255 ++ EvSleep (DOOR_OPEN_DURATION cfg) None :: led_skeleton lp 0
  | _ => []
  end.

Section Invariants.

Context (cfg : Config) (env : Env) (self : addr).

(** The lock is held exactly when a thread is in the section, every won
    acquire is accounted for by a thread in the section or out of it, every
    release by a thread out of it; and as long as nobody has released, a free
    lock means that nobody has tried yet. [a0] and [r0] count the admissions
    and releases before the callers started. *)
Definition gate_inv (a0 r0 : nat) (st : list pc * World) : Prop :=
  exists d,
    heap (snd st) !! self = Some (Some d) /\
    count in_section (fst st) = (if locked (_door_lock d) then 1 else 0)%nat /\
    admissions (trace (snd st)) = (a0 + count in_section (fst st) + count is_exit (fst st))%nat /\
    releases (trace (snd st)) = (r0 + count is_exit (fst st))%nat /\
    (locked (_door_lock d) = false -> releases (trace (snd st)) = r0 ->
     count is_at_acquire (fst st) = length (fst st)).

(** [status] is [True] only while some thread stands between the two
    assignments, or after an exception cut an activation short. *)
Definition status_inv (st : list pc * World) : Prop :=
  forall d,
    heap (snd st) !! self = Some (Some d) ->
    status d = true ->
    exists i p, fst st !! i = Some p /\ (asserted p || faulted p) = true.

(** With no propagating fault no thread is cut short, and while at most one
    thread was admitted the device has seen exactly what that thread did. *)
Definition cycle_inv (lp : option Path) (t0 : list event) (st : list pc * World) : Prop :=
  count faulted (fst st) = 0%nat /\
  (exists d, heap (snd st) !! self = Some (Some d) /\ led_path d = lp) /\
  ((count admitted (fst st) <= 1)%nat ->
   activity (trace (snd st)) = activity t0 ++ flat_map (progress cfg lp) (fst st)).

End Invariants.

(** One whole activation as the device sees it. *)
Definition full_cycle (cfg : Config) (lp : option Path) : list event :=
  led_skeleton lp 255 ++ EvSleep (DOOR_OPEN_DURATION cfg) None :: led_skeleton lp 0.

(** The part of the current activation that a thread in the section has
    already carried out. *)
Definition section_progress (cfg : Config) (lp : option Path) (p : pc) : list event :=
  if in_section p then progress cfg lp p else [].

(** The device has seen whole activations, one per thread that left the
    section, then the part done by the thread in the section. *)
Definition serial_inv (cfg : Config) (self : addr) (lp : option Path) (t0 : list event)
    (st : list pc * World) : Prop :=
  count faulted (fst st) = 0%nat /\
  (exists d, heap (snd st) !! self = Some (Some d) /\ led_path d = lp) /\
  activity (trace (snd st)) =
    activity t0 ++
    concat (replicate (count is_exit (fst st)) (full_cycle cfg lp)) ++
    flat_map (section_progress cfg lp) (fst st).

(** How many steps a thread standing at [p] still has to take. *)
Definition remaining (p : pc) : nat :=
  match p with
  | AtAcquire => 7
  | AtAssert => 6
  | AtSetOpen => 5
  | AtSleep => 4
  | AtDeassert => 3
  | AtSetClosed => 2
  | AtFinally _ => 1
  | AtBusyReturn | AtExit _ => 0
  end.

(** ** Sequences of calls on one controller *)

(** The methods a holder of the controller at [self] may call on it. *)
Inductive call :=
  | CallOpen
  | CallSetLed (b : Z)
  | CallInit (status0 : bool).

Definition run_call (cfg : Config) (env : Env) (self : addr) (c : call) (w : World) : World :=
  match c with
  | CallOpen => snd (open cfg env self w)
  | CallSetLed b => snd (_set_led env self b w)
  | CallInit st => snd (__init__ cfg env self st w)
  end.

Definition run_calls (cfg : Config) (env : Env) (self : addr) (cs : list call) (w : World) : World :=
  fold_left (fun w c => run_call cfg env self c w) cs w.

(** ** Concrete configurations, environments and worlds *)

Module Sample.

Definition work_led : string := "/sys/class/leds/work/brightness".

Definition cfg : Config := mkConfig 3 (Some work_led).
Definition cfg_unset : Config := mkConfig 3 None.

(** The file is there and nothing fails. *)
Definition env_ok : Env := mkEnv (fun _ => true) (fun _ => None) (fun _ => None).
(** The file is missing. *)
Definition env_absent : Env := mkEnv (fun _ => false) (fun _ => None) (fun _ => None).
(** Every write is refused. *)
Definition env_denied : Env := mkEnv (fun _ => true) (fun _ => Some PermissionError) (fun _ => None).
(** The first operation after one log record, the power-on write of a
    first construction, is interrupted (Ctrl-C); nothing fails afterwards. *)
Definition env_killed_once : Env :=
  mkEnv (fun _ => true)
        (fun n => if Nat.eqb n 1 then Some KeyboardInterrupt else None)
        (fun _ => None).
(** The sleep is interrupted (Ctrl-C). *)
Definition env_interrupted : Env :=
  mkEnv (fun _ => true) (fun _ => None) (fun _ => Some KeyboardInterrupt).

Definition door (st lk : bool) : DoorController :=
  mkDoor true st (mkLock lk) (Some (MkPath work_led)).

Definition empty : World := mkWorld [] None [].
(** One idle controller, registered as the singleton. *)
Definition idle : World := mkWorld [Some (door false false)] (Some 0%nat) [].
(** The same controller while another thread is in its hold sleep. *)
Definition busy : World := mkWorld [Some (door true true)] (Some 0%nat) [].
(** Two controllers, the first one busy. *)
Definition pair : World := mkWorld [Some (door true true); Some (door false false)] None [].

End Sample.

(** * Proofs *)

(** ** Methods on a focused world *)

Ltac unfold_bind := unfold mbind, mret, M_mbind, M_mret, M_bind, M_ret.

Ltac norm_app := repeat (progress (rewrite <- ?app_assoc in *; cbn [app] in * )).

Lemma focus_id w self d :
  heap w !! self = Some (Some d) -> focus w self d [] = w.
Proof.
  intros H. destruct w as [h i t]. unfold focus. cbn in *.
  rewrite list_insert_id by exact H. rewrite app_nil_r. reflexivity.
Qed.

Lemma focus_lookup w self d evs :
  (self < length (heap w))%nat -> heap (focus w self d evs) !! self = Some (Some d).
Proof. intros H. cbn. apply list_lookup_insert_eq. exact H. Qed.

Lemma focus_focus w self d evs d' evs' :
  focus (focus w self d evs) self d' evs' = focus w self d' (evs ++ evs').
Proof. unfold focus. cbn. rewrite list_insert_insert_eq, app_assoc. reflexivity. Qed.

Section Focused.

Context (cfg : Config) (env : Env) (w : World) (self : addr).
Hypothesis Hself : (self < length (heap w))%nat.

Lemma load_focus d evs : load self (focus w self d evs) = (Ret d, focus w self d evs).
Proof. unfold load. rewrite focus_lookup by exact Hself. reflexivity. Qed.

Lemma store_focus d d' evs : store self d' (focus w self d evs) = (Ret tt, focus w self d' evs).
Proof. unfold store, focus. cbn. rewrite list_insert_insert_eq. reflexivity. Qed.

Lemma emit_focus ev d evs :
  emit ev (focus w self d evs) = (Ret tt, focus w self d (evs ++ [ev])).
Proof. unfold emit, focus. cbn. rewrite <- app_assoc. reflexivity. Qed.

Lemma log_focus l m d evs :
  log l m (focus w self d evs) = (Ret tt, focus w self d (evs ++ [EvLog l m])).
Proof. apply emit_focus. Qed.

Lemma write_file_focus p data d evs :
  write_file env p data (focus w self d evs) =
    (outcome (write_fault env (length (trace w ++ evs))),
     focus w self d (evs ++ [EvWrite p data (write_fault env (length (trace w ++ evs)))])).
Proof.
  unfold write_file. rewrite emit_focus. cbn.
  destruct (write_fault env _); reflexivity.
Qed.

Lemma sleep_focus z d evs :
  sleep env z (focus w self d evs) =
    (outcome (sleep_fault env (length (trace w ++ evs))),
     focus w self d (evs ++ [EvSleep z (sleep_fault env (length (trace w ++ evs)))])).
Proof.
  unfold sleep. rewrite emit_focus. cbn.
  destruct (sleep_fault env _); reflexivity.
Qed.

Lemma set_status_focus b d evs :
  set_status self b (focus w self d evs) =
    (Ret tt, focus w self (mkDoor (_initialized d) b (_door_lock d) (led_path d)) evs).
Proof. unfold set_status. unfold_bind. rewrite load_focus, store_focus. reflexivity. Qed.

Lemma set_lock_focus l d evs :
  set_lock self l (focus w self d evs) =
    (Ret tt, focus w self (mkDoor (_initialized d) (status d) l (led_path d)) evs).
Proof. unfold set_lock. unfold_bind. rewrite load_focus, store_focus. reflexivity. Qed.

Lemma set_led_path_focus p d evs :
  set_led_path self p (focus w self d evs) =
    (Ret tt, focus w self (mkDoor (_initialized d) (status d) (_door_lock d) p) evs).
Proof. unfold set_led_path. unfold_bind. rewrite load_focus, store_focus. reflexivity. Qed.

Lemma acquire_focus d evs :
  acquire_nonblocking self (focus w self d evs) =
    if locked (_door_lock d)
    then (Ret false, focus w self d (evs ++ [EvAcquire self false]))
    else (Ret true,
          focus w self (mkDoor (_initialized d) (status d) (mkLock true) (led_path d))
                (evs ++ [EvAcquire self true])).
Proof.
  unfold acquire_nonblocking. unfold_bind. rewrite load_focus.
  destruct (locked (_door_lock d)).
  - rewrite emit_focus. reflexivity.
  - rewrite set_lock_focus, emit_focus. reflexivity.
Qed.

Lemma release_focus d evs :
  release self (focus w self d evs) =
    if locked (_door_lock d)
    then (Ret tt,
          focus w self (mkDoor (_initialized d) (status d) (mkLock false) (led_path d))
                (evs ++ [EvRelease self]))
    else (Raise RuntimeError, focus w self d evs).
Proof.
  unfold release. unfold_bind. rewrite load_focus.
  destruct (locked (_door_lock d)).
  - rewrite set_lock_focus, emit_focus. reflexivity.
  - reflexivity.
Qed.

Lemma _set_led_focus b d evs :
  _set_led env self b (focus w self d evs) =
    (fst (led_events env (trace w ++ evs) (led_path d) b),
     focus w self d (evs ++ snd (led_events env (trace w ++ evs) (led_path d) b))).
Proof.
  unfold _set_led, led_events. unfold_bind. rewrite load_focus.
  destruct (led_path d) as [p|].
  - unfold try_except. unfold_bind. rewrite write_file_focus.
    destruct (write_fault env _) as [e|]; cbn [outcome].
    + destruct (is_PermissionError e); [|destruct (is_Exception e)];
        rewrite ?log_focus, <- ?app_assoc; reflexivity.
    + rewrite log_focus, <- app_assoc. reflexivity.
  - rewrite log_focus. reflexivity.
Qed.

Lemma open_focus_busy d evs :
  locked (_door_lock d) = true ->
  open cfg env self (focus w self d evs) =
    (Ret PyNone, focus w self d (evs ++ [EvAcquire self false; EvLog INFO MsgBusy])).
Proof.
  intros L. unfold open. unfold_bind. rewrite acquire_focus, L. cbn [negb].
  rewrite log_focus, <- app_assoc. reflexivity.
Qed.

Lemma open_focus_admitted d evs :
  locked (_door_lock d) = false ->
  exists r st body,
    exit_path cfg env (trace w ++ evs ++ [EvAcquire self true]) (led_path d) (status d) r st body /\
    open cfg env self (focus w self d evs) =
      (r, focus w self (unlocked d st) (evs ++ EvAcquire self true :: body ++ [EvRelease self])).
Proof.
  intros L. unfold open. unfold_bind. rewrite acquire_focus, L. cbn [negb].
  unfold try_finally. unfold_bind. rewrite log_focus, _set_led_focus. cbn [led_path].
  rewrite <- !app_assoc. cbn [app].
  destruct (led_events env _ (led_path d) 255) as [[v1|e1] ev1] eqn:E1; cbn [fst snd].
  - rewrite set_status_focus, sleep_focus. cbn [_initialized _door_lock led_path].
    rewrite <- !app_assoc. cbn [app].
    destruct (sleep_fault env _) as [e2|] eqn:E2; cbn [outcome].
    + rewrite release_focus. cbn [locked _door_lock _initialized status led_path].
      exists (Raise e2), true, (EvLog INFO MsgOpen :: ev1 ++ [EvSleep (DOOR_OPEN_DURATION cfg) (Some e2)]).
      split.
      * norm_app. eapply exit_sleep_fault; norm_app; eassumption.
      * norm_app. reflexivity.
    + rewrite log_focus, _set_led_focus. cbn [led_path].
      rewrite <- !app_assoc. cbn [app].
      destruct (led_events env _ (led_path d) 0) as [[v3|e3] ev3] eqn:E3; cbn [fst snd].
      * rewrite set_status_focus, release_focus.
        cbn [locked _door_lock _initialized status led_path].
        exists (Ret PyNone), false,
          (EvLog INFO MsgOpen :: ev1 ++ EvSleep (DOOR_OPEN_DURATION cfg) None :: EvLog INFO MsgClose :: ev3).
        split.
        -- norm_app. eapply exit_normal; norm_app; eassumption.
        -- norm_app. reflexivity.
      * rewrite release_focus. cbn [locked _door_lock _initialized status led_path].
        exists (Raise e3), true,
          (EvLog INFO MsgOpen :: ev1 ++ EvSleep (DOOR_OPEN_DURATION cfg) None :: EvLog INFO MsgClose :: ev3).
        split.
        -- norm_app. eapply exit_deassert_fault; norm_app; eassumption.
        -- norm_app. reflexivity.
  - rewrite release_focus. cbn [locked _door_lock _initialized status led_path].
    exists (Raise e1), (status d), (EvLog INFO MsgOpen :: ev1). split.
    + norm_app. eapply exit_assert_fault; norm_app; eassumption.
    + norm_app. reflexivity.
Qed.

End Focused.

(** ** Methods on any world that holds the controller *)

Section Sequential.

Context (cfg : Config) (env : Env) (self : addr) (w : World) (d : DoorController).
Hypothesis Hd : heap w !! self = Some (Some d).

Lemma self_valid : (self < length (heap w))%nat.
Proof. eapply lookup_lt_Some. exact Hd. Qed.

Lemma focus_heap evs : heap (focus w self d evs) = heap w.
Proof. cbn. apply list_insert_id. exact Hd. Qed.

Lemma focus_same evs :
  focus w self d evs = mkWorld (heap w) (_door_controller_instance w) (trace w ++ evs).
Proof. unfold focus. rewrite list_insert_id by exact Hd. reflexivity. Qed.

Lemma _set_led_run b :
  _set_led env self b w =
    (fst (led_events env (trace w) (led_path d) b),
     focus w self d (snd (led_events env (trace w) (led_path d) b))).
Proof.
  rewrite <- (focus_id w self d Hd) at 1.
  rewrite _set_led_focus by exact self_valid. rewrite app_nil_r. reflexivity.
Qed.

Lemma open_busy :
  locked (_door_lock d) = true ->
  open cfg env self w =
    (Ret PyNone, focus w self d [EvAcquire self false; EvLog INFO MsgBusy]).
Proof.
  intros L. rewrite <- (focus_id w self d Hd) at 1.
  rewrite open_focus_busy by (exact self_valid || exact L). reflexivity.
Qed.

Lemma open_admitted :
  locked (_door_lock d) = false ->
  exists r st body,
    exit_path cfg env (trace w ++ [EvAcquire self true]) (led_path d) (status d) r st body /\
    open cfg env self w =
      (r, focus w self (unlocked d st) (EvAcquire self true :: body ++ [EvRelease self])).
Proof.
  intros L.
  destruct (open_focus_admitted cfg env w self self_valid d [] L) as (r & st & body & P & E).
  rewrite (focus_id w self d Hd) in E. exists r, st, body. split; [exact P | exact E].
Qed.

End Sequential.

(** ** What a [_set_led] call and a [try] block leave in the trace *)

Lemma writes_app t1 t2 : writes (t1 ++ t2) = writes t1 ++ writes t2.
Proof. apply omap_app. Qed.

Lemma sleeps_app t1 t2 : sleeps (t1 ++ t2) = sleeps t1 ++ sleeps t2.
Proof. apply omap_app. Qed.

Lemma skeleton_app t1 t2 : skeleton (t1 ++ t2) = skeleton t1 ++ skeleton t2.
Proof. apply omap_app. Qed.

Lemma clamp_255 : py_str (Z.max 0 (Z.min 255 255)) = "255"%string.
Proof. reflexivity. Qed.

Lemma clamp_0 : py_str (Z.max 0 (Z.min 255 0)) = "0"%string.
Proof. reflexivity. Qed.

Lemma led_events_writes env t lp b :
  writes (snd (led_events env t lp b)) =
    match lp with
    | None => []
    | Some p => [(p, py_str (Z.max 0 (Z.min 255 b)))]
    end.
Proof.
  unfold led_events. destruct lp as [p|]; [|reflexivity].
  destruct (write_fault env (length t)) as [e|]; [|reflexivity].
  destruct (is_PermissionError e); [|destruct (is_Exception e)]; reflexivity.
Qed.

Lemma led_events_sleeps env t lp b : sleeps (snd (led_events env t lp b)) = [].
Proof.
  unfold led_events. destruct lp as [p|]; [|reflexivity].
  destruct (write_fault env (length t)) as [e|]; [|reflexivity].
  destruct (is_PermissionError e); [|destruct (is_Exception e)]; reflexivity.
Qed.

Lemma led_events_no_lock env t lp b :
  Forall (fun ev => is_lock_event ev = false) (snd (led_events env t lp b)).
Proof.
  unfold led_events. destruct lp as [p|]; [|repeat constructor].
  destruct (write_fault env (length t)) as [e|]; [|repeat constructor].
  destruct (is_PermissionError e); [|destruct (is_Exception e)]; repeat constructor.
Qed.

Lemma led_events_ret env t lp b v evs :
  led_events env t lp b = (Ret v, evs) -> v = PyNone.
Proof.
  unfold led_events. destruct lp as [p|]; [|congruence].
  destruct (write_fault env (length t)) as [e|]; [|congruence].
  destruct (is_PermissionError e); [|destruct (is_Exception e)]; congruence.
Qed.

(** An exception leaves [_set_led] only if the write raised it and it is
    not an [Exception]. *)
Lemma led_events_raise env t lp b e evs :
  led_events env t lp b = (Raise e, evs) ->
  write_fault env (length t) = Some e /\ is_Exception e = false.
Proof.
  unfold led_events. destruct lp as [p|]; [|congruence].
  destruct (write_fault env (length t)) as [e'|]; [|congruence].
  destruct (is_PermissionError e') eqn:P; [congruence|].
  destruct (is_Exception e') eqn:X; [congruence|].
  intros [= <- _]. split; [reflexivity | exact X].
Qed.

(** When every write fault is an [Exception], [_set_led] swallows it. *)
Lemma led_events_swallowed env t lp b :
  (forall n e, write_fault env n = Some e -> is_Exception e = true) ->
  exists evs,
    led_events env t lp b = (Ret PyNone, evs) /\
    length evs = led_len lp /\
    skeleton evs = led_skeleton lp b /\
    activity evs = led_skeleton lp b.
Proof.
  intros Hdev. unfold led_events. destruct lp as [p|].
  - destruct (write_fault env (length t)) as [e|] eqn:F.
    + specialize (Hdev _ _ F).
      destruct (is_PermissionError e); [|rewrite Hdev]; eexists; repeat split.
    + eexists; repeat split.
  - eexists; repeat split.
Qed.

Lemma exit_path_no_lock cfg env t lp st0 r st body :
  exit_path cfg env t lp st0 r st body ->
  Forall (fun ev => is_lock_event ev = false) body.
Proof.
  intros P. inversion P; subst;
    repeat match goal with
    | H : led_events ?env ?t ?lp ?b = (_, ?evs) |- _ =>
        let N := fresh "N" in
        pose proof (led_events_no_lock env t lp b) as N; rewrite H in N; cbn [snd] in N; clear H
    end;
    repeat first [ apply Forall_cons; split; [reflexivity|]
                 | apply Forall_app; split
                 | assumption
                 | apply Forall_nil_2 ].
Qed.

Lemma writes_log l m t : writes (EvLog l m :: t) = writes t.
Proof. reflexivity. Qed.

Lemma writes_sleep z f t : writes (EvSleep z f :: t) = writes t.
Proof. reflexivity. Qed.

Lemma sleeps_log l m t : sleeps (EvLog l m :: t) = sleeps t.
Proof. reflexivity. Qed.

Lemma sleeps_sleep z f t : sleeps (EvSleep z f :: t) = z :: sleeps t.
Proof. reflexivity. Qed.

Ltac led_facts lem :=
  repeat match goal with
  | H : led_events ?env ?t ?lp ?b = (_, ?evs) |- _ =>
      let N := fresh "N" in
      pose proof (lem env t lp b) as N; rewrite H in N; cbn [snd] in N; clear H
  end.

(** The writes of a [try] block on a bound device: both when it completes,
    and always the assert write first. *)
Lemma exit_path_writes cfg env t p st0 r st body :
  exit_path cfg env t (Some p) st0 r st body ->
  (r = Ret PyNone -> writes body = [(p, "255"%string); (p, "0"%string)]) /\
  (writes body = [(p, "255"%string)] \/ writes body = [(p, "255"%string); (p, "0"%string)]).
Proof.
  intros P. inversion P; subst; led_facts led_events_writes;
    repeat (rewrite writes_app || rewrite writes_log || rewrite writes_sleep);
    repeat match goal with N : writes _ = _ |- _ => rewrite N; clear N end;
    rewrite ?clamp_255, ?clamp_0; cbn [app writes omap];
    (split; [ first [ discriminate | reflexivity ] | auto ]).
Qed.

Lemma exit_path_sleeps cfg env t lp st0 st body :
  exit_path cfg env t lp st0 (Ret PyNone) st body ->
  sleeps body = [DOOR_OPEN_DURATION cfg] /\ st = false.
Proof.
  intros P. inversion P; subst. led_facts led_events_sleeps.
  repeat (rewrite sleeps_app || rewrite sleeps_log || rewrite sleeps_sleep).
  repeat match goal with N : sleeps _ = _ |- _ => rewrite N; clear N end.
  split; reflexivity.
Qed.

(** Without a propagating fault the block completes. *)
Lemma exit_path_fault_free cfg env t lp st0 r st body :
  fault_free env -> exit_path cfg env t lp st0 r st body -> r = Ret PyNone.
Proof.
  intros [Hw Hs] P. inversion P; subst; try reflexivity.
  - apply led_events_raise in H as [F X]. rewrite (Hw _ _ F) in X. discriminate.
  - rewrite Hs in H0. discriminate.
  - apply led_events_raise in H1 as [F X]. rewrite (Hw _ _ F) in X. discriminate.
Qed.

(** Where an exception that leaves the block comes from. *)
Lemma exit_path_raise cfg env t lp st0 e st body :
  exit_path cfg env t lp st0 (Raise e) st body ->
  exists n, sleep_fault env n = Some e \/ (write_fault env n = Some e /\ is_Exception e = false).
Proof.
  intros P. inversion P; subst.
  - apply led_events_raise in H0. eauto.
  - eauto.
  - apply led_events_raise in H2. eauto.
Qed.

(** ** The text written to the device *)

Lemma py_int_py_str z : py_int (py_str z) = Some z.
Proof.
  unfold py_int, py_str. rewrite NilZero.isi.
  - cbn. f_equal. apply DecimalZ.of_to.
  - destruct z as [|p|p]; cbn; try discriminate.
    intros [= E]. revert E. apply DecimalPos.Unsigned.to_uint_nonnil.
  - destruct z as [|p|p]; cbn; try discriminate.
    intros [= E]. revert E. apply DecimalPos.Unsigned.to_uint_nonnil.
Qed.

(** ** Sequential behaviour of [_set_led] and [open] *)

(** C7: [_set_led] leaves the heap alone; without a device it writes nothing
    and returns; with a device it performs exactly one write, whether or not
    the write succeeds, and the text written is the decimal numeral of the
    level clamped into [0, 255]. *)
Theorem _set_led_single_clamped_write env self b w d :
  heap w !! self = Some (Some d) ->
  exists r evs,
    _set_led env self b w =
      (r, mkWorld (heap w) (_door_controller_instance w) (trace w ++ evs)) /\
    match led_path d with
    | None => r = Ret PyNone /\ writes evs = []
    | Some p =>
        exists c,
          writes evs = [(p, py_str c)] /\
          py_int (py_str c) = Some c /\
          0 <= c <= 255 /\
          (b < 0 -> c = 0) /\ (0 <= b <= 255 -> c = b) /\ (255 < b -> c = 255)
    end.
Proof.
  intros Hd. rewrite (_set_led_run env self w d Hd b).
  rewrite (focus_same self w d Hd).
  eexists _, _. split; [reflexivity|].
  rewrite led_events_writes.
  destruct (led_path d) as [p|].
  - exists (Z.max 0 (Z.min 255 b)). split; [reflexivity|].
    split; [apply py_int_py_str|]. lia.
  - split; reflexivity.
Qed.

Lemma _set_led_single_clamped_write_witness :
  exists r evs,
    _set_led Sample.env_denied 0%nat 300 Sample.idle =
      (r, mkWorld (heap Sample.idle) (_door_controller_instance Sample.idle)
            (trace Sample.idle ++ evs)) /\
    match led_path (Sample.door false false) with
    | None => r = Ret PyNone /\ writes evs = []
    | Some p =>
        exists c,
          writes evs = [(p, py_str c)] /\
          py_int (py_str c) = Some c /\
          0 <= c <= 255 /\
          (300 < 0 -> c = 0) /\ (0 <= 300 <= 255 -> c = 300) /\ (255 < 300 -> c = 255)
    end.
Proof.
  apply (_set_led_single_clamped_write Sample.env_denied 0%nat 300 Sample.idle
           (Sample.door false false)).
  reflexivity.
Defined.

(** C4: a call that finds the lock taken returns at once; all it leaves is
    the failed acquire and one log record: no device write, no sleep, and the
    heap, hence [status] and the lock, is untouched. *)
Theorem open_rejected_no_effect cfg env self w d :
  heap w !! self = Some (Some d) ->
  locked (_door_lock d) = true ->
  open cfg env self w =
    (Ret PyNone,
     mkWorld (heap w) (_door_controller_instance w)
       (trace w ++ [EvAcquire self false; EvLog INFO MsgBusy])) /\
  heap (snd (open cfg env self w)) = heap w /\
  writes (trace (snd (open cfg env self w))) = writes (trace w) /\
  sleeps (trace (snd (open cfg env self w))) = sleeps (trace w).
Proof.
  intros Hd L. rewrite (open_busy cfg env self w d Hd L), (focus_same self w d Hd).
  cbn [snd heap trace]. rewrite writes_app, sleeps_app. cbn.
  rewrite !app_nil_r. auto.
Qed.

Lemma open_rejected_no_effect_witness :
  open Sample.cfg Sample.env_ok 0%nat Sample.busy =
    (Ret PyNone,
     mkWorld (heap Sample.busy) (_door_controller_instance Sample.busy)
       (trace Sample.busy ++ [EvAcquire 0%nat false; EvLog INFO MsgBusy])) /\
  heap (snd (open Sample.cfg Sample.env_ok 0%nat Sample.busy)) = heap Sample.busy /\
  writes (trace (snd (open Sample.cfg Sample.env_ok 0%nat Sample.busy))) =
    writes (trace Sample.busy) /\
  sleeps (trace (snd (open Sample.cfg Sample.env_ok 0%nat Sample.busy))) =
    sleeps (trace Sample.busy).
Proof.
  apply (open_rejected_no_effect Sample.cfg Sample.env_ok 0%nat Sample.busy
           (Sample.door true true)); reflexivity.
Defined.

(** C2: an admitted call releases the lock on every way out of the [try]
    block, whatever the writes and the sleep do: the last event of the call
    is the release, no other lock operation lies between the acquire and it,
    the lock is free afterwards and the next acquire succeeds. *)
Theorem open_releases_lock cfg env self w d :
  heap w !! self = Some (Some d) ->
  locked (_door_lock d) = false ->
  exists r w' d' body,
    open cfg env self w = (r, w') /\
    heap w' !! self = Some (Some d') /\
    locked (_door_lock d') = false /\
    trace w' = trace w ++ EvAcquire self true :: body ++ [EvRelease self] /\
    Forall (fun ev => is_lock_event ev = false) body /\
    fst (acquire_nonblocking self w') = Ret true.
Proof.
  intros Hd L.
  destruct (open_admitted cfg env self w d Hd L) as (r & st & body & P & E).
  exists r, (focus w self (unlocked d st) (EvAcquire self true :: body ++ [EvRelease self])),
    (unlocked d st), body.
  pose proof (self_valid self w d Hd) as V.
  repeat split.
  - exact E.
  - apply focus_lookup. exact V.
  - eapply exit_path_no_lock. exact P.
  - rewrite acquire_focus by exact V. reflexivity.
Qed.

Lemma open_releases_lock_witness :
  exists r w' d' body,
    open Sample.cfg Sample.env_interrupted 0%nat Sample.idle = (r, w') /\
    heap w' !! 0%nat = Some (Some d') /\
    locked (_door_lock d') = false /\
    trace w' = trace Sample.idle ++ EvAcquire 0%nat true :: body ++ [EvRelease 0%nat] /\
    Forall (fun ev => is_lock_event ev = false) body /\
    fst (acquire_nonblocking 0%nat w') = Ret true.
Proof.
  apply (open_releases_lock Sample.cfg Sample.env_interrupted 0%nat Sample.idle
           (Sample.door false false)); reflexivity.
Defined.

(** C1 fails on the code: an admitted call that runs to completion returns
    [None], not [True], and so does a rejected one instead of [False]. *)
Lemma open_returns_boolean_counterexample :
  In (EvAcquire 0%nat true) (trace (snd (open Sample.cfg Sample.env_ok 0%nat Sample.idle))) /\
  fst (open Sample.cfg Sample.env_ok 0%nat Sample.idle) <> Ret (PyBool true) /\
  In (EvAcquire 0%nat false) (trace (snd (open Sample.cfg Sample.env_ok 0%nat Sample.busy))) /\
  fst (open Sample.cfg Sample.env_ok 0%nat Sample.busy) <> Ret (PyBool false).
Proof.
  vm_compute. repeat split; try discriminate; auto 20.
Qed.

(** C1, amended: [open] returns [None] both when the call is rejected and
    when it is admitted and runs to completion, never a boolean; the only
    other outcome is an exception of an admitted call, raised by the hold
    sleep or by a device write when it is not an [Exception], and it
    propagates with the lock released. *)
Theorem open_returns_None cfg env self w d :
  heap w !! self = Some (Some d) ->
  (locked (_door_lock d) = true -> fst (open cfg env self w) = Ret PyNone) /\
  (locked (_door_lock d) = false -> fault_free env -> fst (open cfg env self w) = Ret PyNone) /\
  (forall v, fst (open cfg env self w) = Ret v -> v = PyNone) /\
  (forall e, fst (open cfg env self w) = Raise e ->
     locked (_door_lock d) = false /\
     (exists n, sleep_fault env n = Some e \/
                (write_fault env n = Some e /\ is_Exception e = false)) /\
     (exists d', heap (snd (open cfg env self w)) !! self = Some (Some d') /\
                 locked (_door_lock d') = false)).
Proof.
  intros Hd. destruct (locked (_door_lock d)) eqn:L.
  - rewrite (open_busy cfg env self w d Hd L). cbn [fst].
    split; [reflexivity|]. split; [discriminate|]. split.
    + intros v [= <-]. reflexivity.
    + discriminate.
  - destruct (open_admitted cfg env self w d Hd L) as (r & st & body & P & E).
    rewrite E. cbn [fst snd]. split; [discriminate|]. split; [|split].
    + intros _ F. eapply exit_path_fault_free; eassumption.
    + intros v ->. inversion P. reflexivity.
    + intros e ->. split; [reflexivity|]. split.
      * eapply exit_path_raise. exact P.
      * exists (unlocked d st). split; [|reflexivity].
        apply focus_lookup. eapply lookup_lt_Some. exact Hd.
Qed.

Lemma open_returns_None_witness :
  (locked (_door_lock (Sample.door false false)) = true ->
     fst (open Sample.cfg Sample.env_ok 0%nat Sample.idle) = Ret PyNone) /\
  (locked (_door_lock (Sample.door false false)) = false -> fault_free Sample.env_ok ->
     fst (open Sample.cfg Sample.env_ok 0%nat Sample.idle) = Ret PyNone) /\
  (forall v, fst (open Sample.cfg Sample.env_ok 0%nat Sample.idle) = Ret v -> v = PyNone) /\
  (forall e, fst (open Sample.cfg Sample.env_ok 0%nat Sample.idle) = Raise e ->
     locked (_door_lock (Sample.door false false)) = false /\
     (exists n, sleep_fault Sample.env_ok n = Some e \/
                (write_fault Sample.env_ok n = Some e /\ is_Exception e = false)) /\
     (exists d', heap (snd (open Sample.cfg Sample.env_ok 0%nat Sample.idle)) !! 0%nat =
                   Some (Some d') /\
                 locked (_door_lock d') = false)).
Proof.
  apply (open_returns_None Sample.cfg Sample.env_ok 0%nat Sample.idle (Sample.door false false)).
  reflexivity.
Defined.

(** C5 fails on the code: when the hold sleep is interrupted, the admitted
    activation has written 255 and never writes 0. *)
Lemma open_two_writes_counterexample :
  In (EvAcquire 0%nat true)
     (trace (snd (open Sample.cfg Sample.env_interrupted 0%nat Sample.idle))) /\
  writes (trace (snd (open Sample.cfg Sample.env_interrupted 0%nat Sample.idle))) =
    [(MkPath Sample.work_led, "255"%string)] /\
  writes (trace (snd (open Sample.cfg Sample.env_interrupted 0%nat Sample.idle))) <>
    [(MkPath Sample.work_led, "255"%string); (MkPath Sample.work_led, "0"%string)].
Proof.
  vm_compute. repeat split; try discriminate; auto 20.
Qed.

(** C5, amended: an admitted activation on a bound device that returns
    performs exactly two device writes, 255 then 0; one that an exception
    cuts short has performed the write of 255 alone or both, in that order. *)
Theorem open_writes_assert_then_deassert cfg env self w d p :
  heap w !! self = Some (Some d) ->
  locked (_door_lock d) = false ->
  led_path d = Some p ->
  exists r w' evs,
    open cfg env self w = (r, w') /\
    trace w' = trace w ++ evs /\
    (r = Ret PyNone -> writes evs = [(p, "255"%string); (p, "0"%string)]) /\
    (writes evs = [(p, "255"%string)] \/
     writes evs = [(p, "255"%string); (p, "0"%string)]).
Proof.
  intros Hd L B.
  destruct (open_admitted cfg env self w d Hd L) as (r & st & body & P & E).
  rewrite B in P. apply exit_path_writes in P as [P1 P2].
  eexists _, _, _. split; [exact E|]. split; [reflexivity|].
  change (EvAcquire self true :: body ++ [EvRelease self])
    with ([EvAcquire self true] ++ body ++ [EvRelease self]).
  rewrite !writes_app. cbn [writes omap app]. rewrite app_nil_r.
  split; assumption.
Qed.

Lemma open_writes_assert_then_deassert_witness :
  exists r w' evs,
    open Sample.cfg Sample.env_denied 0%nat Sample.idle = (r, w') /\
    trace w' = trace Sample.idle ++ evs /\
    (r = Ret PyNone ->
     writes evs = [(MkPath Sample.work_led, "255"%string); (MkPath Sample.work_led, "0"%string)]) /\
    (writes evs = [(MkPath Sample.work_led, "255"%string)] \/
     writes evs = [(MkPath Sample.work_led, "255"%string); (MkPath Sample.work_led, "0"%string)]).
Proof.
  apply (open_writes_assert_then_deassert Sample.cfg Sample.env_denied 0%nat Sample.idle
           (Sample.door false false)); reflexivity.
Defined.

(** ** Device errors *)

Lemma skeleton_log l m t : skeleton (EvLog l m :: t) = skeleton t.
Proof. reflexivity. Qed.

Lemma skeleton_sleep z f t : skeleton (EvSleep z f :: t) = EvSleep z f :: skeleton t.
Proof. reflexivity. Qed.

(** When every write fault is an [Exception], the [try] block is decided by
    the sleep alone, and so is what it does, up to the answers of the device. *)
Lemma exit_path_swallowed cfg env t lp st0 r st body :
  (forall n e, write_fault env n = Some e -> is_Exception e = true) ->
  exit_path cfg env t lp st0 r st body ->
  match sleep_fault env (length t + S (led_len lp)) with
  | Some e =>
      r = Raise e /\ st = true /\
      skeleton body = led_skeleton lp 255 ++ [EvSleep (DOOR_OPEN_DURATION cfg) (Some e)]
  | None =>
      r = Ret PyNone /\ st = false /\
      skeleton body =
        led_skeleton lp 255 ++ EvSleep (DOOR_OPEN_DURATION cfg) None :: led_skeleton lp 0
  end.
Proof.
  intros Hdev P.
  inversion P; subst;
    repeat match goal with
    | H : led_events env ?t' lp ?b = _ |- _ =>
        let evs := fresh "evs" in let E := fresh "E" in
        let Len := fresh "Len" in let Sk := fresh "Sk" in
        destruct (led_events_swallowed env t' lp b Hdev) as (evs & E & Len & Sk & _);
        rewrite E in H; inversion H; subst; clear H E
    end;
    match goal with
    | H : sleep_fault env (length (t ++ _ :: ?ev)) = _, L : length ?ev = _ |- _ =>
        rewrite length_app in H; cbn [length] in H; rewrite L in H; rewrite H
    end;
    repeat (rewrite skeleton_app || rewrite skeleton_log || rewrite skeleton_sleep);
    repeat match goal with Sk : skeleton _ = _ |- _ => rewrite Sk; clear Sk end;
    cbn [skeleton omap]; rewrite ?app_nil_r; repeat split.
Qed.

Lemma healthy_device_swallows env :
  forall n e, write_fault (healthy_device env) n = Some e -> is_Exception e = true.
Proof. intros n e. cbn. discriminate. Qed.

(** C8: when the device layer fails with a [PermissionError], an [OSError]
    or any other [Exception], [_set_led] returns normally, and [open] ends
    as it does on a healthy device: same result, same final heap ([status]
    and lock), same operations in the same order; an exception that leaves
    [open] can only come from the sleep. With a sleep that returns, the
    assert, the hold, the de-assert and the release all take place. *)
Theorem device_errors_swallowed cfg env self w d :
  heap w !! self = Some (Some d) ->
  (forall n e, write_fault env n = Some e -> is_Exception e = true) ->
  (forall b, fst (_set_led env self b w) = Ret PyNone) /\
  fst (open cfg env self w) = fst (open cfg (healthy_device env) self w) /\
  heap (snd (open cfg env self w)) = heap (snd (open cfg (healthy_device env) self w)) /\
  skeleton (trace (snd (open cfg env self w))) =
    skeleton (trace (snd (open cfg (healthy_device env) self w))) /\
  (forall e, fst (open cfg env self w) = Raise e -> exists n, sleep_fault env n = Some e) /\
  (locked (_door_lock d) = false -> (forall n, sleep_fault env n = None) ->
   fst (open cfg env self w) = Ret PyNone /\
   heap (snd (open cfg env self w)) !! self = Some (Some (unlocked d false)) /\
   skeleton (trace (snd (open cfg env self w))) =
     skeleton (trace w) ++
       EvAcquire self true ::
       led_skeleton (led_path d) 255 ++
       EvSleep (DOOR_OPEN_DURATION cfg) None ::
       led_skeleton (led_path d) 0 ++ [EvRelease self]).
Proof.
  intros Hd Hdev. split.
  { intros b. rewrite (_set_led_run env self w d Hd b). cbn [fst].
    destruct (led_events_swallowed env (trace w) (led_path d) b Hdev) as (evs & E & _).
    rewrite E. reflexivity. }
  destruct (locked (_door_lock d)) eqn:L.
  { rewrite !(open_busy cfg _ self w d Hd L). cbn [fst snd].
    repeat split; discriminate. }
  destruct (open_admitted cfg env self w d Hd L) as (r & st & body & P & E).
  destruct (open_admitted cfg (healthy_device env) self w d Hd L)
    as (r' & st' & body' & P' & E').
  apply (exit_path_swallowed _ _ _ _ _ _ _ _ Hdev) in P.
  apply (exit_path_swallowed _ _ _ _ _ _ _ _ (healthy_device_swallows env)) in P'.
  cbn [sleep_fault healthy_device] in P'.
  rewrite E, E'. cbn [fst snd focus heap trace].
  change (EvAcquire self true :: ?b ++ [EvRelease self])
    with ([EvAcquire self true] ++ b ++ [EvRelease self]).
  rewrite !skeleton_app.
  destruct (sleep_fault env (length (trace w ++ [EvAcquire self true]) + S (led_len (led_path d))))
    as [e|] eqn:S;
    destruct P as (-> & -> & ->), P' as (-> & -> & ->).
  - do 3 (split; [reflexivity|]). split.
    + intros e' [= <-]. eauto.
    + intros _ Hs. rewrite Hs in S. discriminate.
  - do 3 (split; [reflexivity|]). split; [discriminate|].
    intros _ _. split; [reflexivity|]. split.
    + apply list_lookup_insert_eq. eapply lookup_lt_Some. exact Hd.
    + cbn [skeleton omap app]. rewrite <- !app_assoc. reflexivity.
Qed.

Lemma device_errors_swallowed_witness :
  (forall b, fst (_set_led Sample.env_denied 0%nat b Sample.idle) = Ret PyNone) /\
  fst (open Sample.cfg Sample.env_denied 0%nat Sample.idle) =
    fst (open Sample.cfg (healthy_device Sample.env_denied) 0%nat Sample.idle) /\
  heap (snd (open Sample.cfg Sample.env_denied 0%nat Sample.idle)) =
    heap (snd (open Sample.cfg (healthy_device Sample.env_denied) 0%nat Sample.idle)) /\
  skeleton (trace (snd (open Sample.cfg Sample.env_denied 0%nat Sample.idle))) =
    skeleton (trace (snd (open Sample.cfg (healthy_device Sample.env_denied) 0%nat Sample.idle))) /\
  (forall e, fst (open Sample.cfg Sample.env_denied 0%nat Sample.idle) = Raise e ->
     exists n, sleep_fault Sample.env_denied n = Some e) /\
  (locked (_door_lock (Sample.door false false)) = false ->
   (forall n, sleep_fault Sample.env_denied n = None) ->
   fst (open Sample.cfg Sample.env_denied 0%nat Sample.idle) = Ret PyNone /\
   heap (snd (open Sample.cfg Sample.env_denied 0%nat Sample.idle)) !! 0%nat =
     Some (Some (unlocked (Sample.door false false) false)) /\
   skeleton (trace (snd (open Sample.cfg Sample.env_denied 0%nat Sample.idle))) =
     skeleton (trace Sample.idle) ++
       EvAcquire 0%nat true ::
       led_skeleton (led_path (Sample.door false false)) 255 ++
       EvSleep (DOOR_OPEN_DURATION Sample.cfg) None ::
       led_skeleton (led_path (Sample.door false false)) 0 ++ [EvRelease 0%nat]).
Proof.
  apply (device_errors_swallowed Sample.cfg Sample.env_denied 0%nat Sample.idle
           (Sample.door false false)).
  - reflexivity.
  - intros n e H. injection H as <-. reflexivity.
Defined.

(** ** Construction and the singleton *)

Lemma store_fresh self d w : store self d w = (Ret tt, focus w self d []).
Proof. unfold store, focus. rewrite app_nil_r. reflexivity. Qed.

(** What [__init__] does to an object that has no attribute yet. *)
Lemma init_fresh cfg env self st w :
  heap w !! self = Some None ->
  exists r d evs,
    __init__ cfg env self st w = (r, focus w self d evs) /\
    _initialized d = true /\ status d = st /\ _door_lock d = new_Lock /\
    match truthy (LED_SYSFS_PATH cfg) with
    | Some s =>
        if path_exists env (MkPath s) then
          led_path d = Some (MkPath s) /\
          writes evs = [(MkPath s, "0"%string)] /\
          (r = Ret PyNone \/
           exists e n, r = Raise e /\ write_fault env n = Some e /\ is_Exception e = false)
        else
          r = Ret PyNone /\ led_path d = None /\
          evs = [EvLog WARNING (MsgLedNotFound (MkPath s))]
    | None =>
        r = Ret PyNone /\ led_path d = None /\ evs = [EvLog INFO MsgLedDisabled]
    end.
Proof.
  intros H. assert (V : (self < length (heap w))%nat) by (eapply lookup_lt_Some; exact H).
  unfold __init__. rewrite H. unfold_bind. rewrite store_fresh.
  destruct (truthy (LED_SYSFS_PATH cfg)) as [s|]; cbn [option_map].
  - destruct (path_exists env (MkPath s)).
    + rewrite log_focus, _set_led_focus by exact V. cbn [led_path app].
      pose proof (led_events_writes env (trace w ++ [EvLog INFO (MsgLedFound (MkPath s))])
                    (Some (MkPath s)) 0) as Wr.
      destruct (led_events env _ (Some (MkPath s)) 0) as [[v|e] ev1] eqn:E; cbn [fst snd] in *.
      * rewrite log_focus by exact V. eexists _, _, _. split; [reflexivity|].
        repeat split. 2: left; reflexivity.
        change (EvLog INFO (MsgLedFound (MkPath s)) :: ?l)
          with ([EvLog INFO (MsgLedFound (MkPath s))] ++ l).
        rewrite !writes_app, Wr. reflexivity.
      * eexists _, _, _. split; [reflexivity|]. repeat split.
        -- rewrite writes_log. exact Wr.
        -- right. apply led_events_raise in E as [F X]. eauto.
    + rewrite log_focus, set_led_path_focus by exact V.
      eexists _, _, _. split; [reflexivity|]. repeat split.
  - rewrite log_focus by exact V. eexists _, _, _. split; [reflexivity|]. repeat split.
Qed.

(** The guard: on an object that has its attributes, [__init__] does nothing. *)
Lemma init_again cfg env self st w d :
  heap w !! self = Some (Some d) -> __init__ cfg env self st w = (Ret PyNone, w).
Proof. intros H. unfold __init__. rewrite H. reflexivity. Qed.

Lemma alloc_focus h i t d evs :
  focus (mkWorld (h ++ [None]) i t) (length h) d evs = mkWorld (h ++ [Some d]) i (t ++ evs).
Proof.
  unfold focus. cbn. f_equal.
  rewrite insert_app_r_alt by lia. rewrite Nat.sub_diag. reflexivity.
Qed.

Lemma construct cfg env st w :
  exists r d evs,
    new_DoorController cfg env st w =
      (r, mkWorld (heap w ++ [Some d]) (_door_controller_instance w) (trace w ++ evs)) /\
    _initialized d = true /\ status d = st /\ _door_lock d = new_Lock /\
    match truthy (LED_SYSFS_PATH cfg) with
    | Some s =>
        if path_exists env (MkPath s) then
          led_path d = Some (MkPath s) /\
          writes evs = [(MkPath s, "0"%string)] /\
          (r = Ret (length (heap w)) \/
           exists e n, r = Raise e /\ write_fault env n = Some e /\ is_Exception e = false)
        else
          r = Ret (length (heap w)) /\ led_path d = None /\
          evs = [EvLog WARNING (MsgLedNotFound (MkPath s))]
    | None =>
        r = Ret (length (heap w)) /\ led_path d = None /\ evs = [EvLog INFO MsgLedDisabled]
    end.
Proof.
  unfold new_DoorController.
  set (w1 := mkWorld (heap w ++ [None]) (_door_controller_instance w) (trace w)).
  assert (H : heap w1 !! length (heap w) = Some None).
  { apply list_lookup_middle. reflexivity. }
  destruct (init_fresh cfg env (length (heap w)) st w1 H) as (r & d & evs & E & I & S & L & C).
  rewrite E. unfold w1. rewrite alloc_focus.
  exists (match r with Ret _ => Ret (length (heap w)) | Raise e => Raise e end), d, evs.
  split; [destruct r; reflexivity|]. repeat split; try assumption.
  destruct (truthy (LED_SYSFS_PATH cfg)) as [s|].
  - destruct (path_exists env (MkPath s)).
    + destruct C as (C1 & C2 & [-> | (e & n & -> & C3)]); repeat split; eauto 10.
    + destruct C as (-> & C2 & C3). repeat split; assumption.
  - destruct C as (-> & C2 & C3). repeat split; assumption.
Qed.

Lemma exit_path_unbound cfg env t st0 r st body :
  exit_path cfg env t None st0 r st body -> writes body = [].
Proof.
  intros P. inversion P; subst; led_facts led_events_writes;
    repeat (rewrite writes_app || rewrite writes_log || rewrite writes_sleep);
    repeat match goal with N : writes _ = _ |- _ => rewrite N; clear N end;
    reflexivity.
Qed.

(** A method call rewrites the object in place; it never touches
    [_initialized] or [led_path], and without a device it writes nothing. *)
Lemma run_call_focus cfg env self c w d :
  heap w !! self = Some (Some d) ->
  exists d' evs,
    run_call cfg env self c w = focus w self d' evs /\
    _initialized d' = _initialized d /\ led_path d' = led_path d /\
    (led_path d = None -> writes evs = []).
Proof.
  intros Hd. destruct c as [|b|st]; cbn [run_call].
  - destruct (locked (_door_lock d)) eqn:L.
    + rewrite (open_busy cfg env self w d Hd L). eexists _, _. repeat split.
    + destruct (open_admitted cfg env self w d Hd L) as (r & st & body & P & E).
      rewrite E. eexists _, _. split; [reflexivity|]. repeat split.
      intros N. rewrite N in P. apply exit_path_unbound in P.
      change (EvAcquire self true :: body ++ [EvRelease self])
        with ([EvAcquire self true] ++ body ++ [EvRelease self]).
      rewrite !writes_app, P. reflexivity.
  - rewrite (_set_led_run env self w d Hd b). eexists _, _. split; [reflexivity|].
    repeat split. intros N. rewrite led_events_writes, N. reflexivity.
  - rewrite (init_again cfg env self st w d Hd). exists d, [].
    rewrite (focus_id w self d Hd). repeat split.
Qed.

Lemma run_calls_focus cfg env self cs w d :
  heap w !! self = Some (Some d) ->
  exists d' evs,
    run_calls cfg env self cs w = focus w self d' evs /\
    _initialized d' = _initialized d /\ led_path d' = led_path d /\
    (led_path d = None -> writes evs = []).
Proof.
  revert w d. induction cs as [|c cs IH]; intros w d Hd.
  - exists d, []. rewrite (focus_id w self d Hd). repeat split.
  - cbn [run_calls fold_left].
    destruct (run_call_focus cfg env self c w d Hd) as (d1 & ev1 & E1 & I1 & P1 & W1).
    rewrite E1.
    assert (H1 : heap (focus w self d1 ev1) !! self = Some (Some d1)).
    { apply focus_lookup. eapply lookup_lt_Some. exact Hd. }
    destruct (IH _ _ H1) as (d2 & ev2 & E2 & I2 & P2 & W2).
    unfold run_calls in E2. rewrite E2, focus_focus.
    exists d2, (ev1 ++ ev2). split; [reflexivity|]. repeat split; try congruence.
    intros N. rewrite writes_app, W1, W2 by congruence. reflexivity.
Qed.

(** C9: constructing a controller never fails for want of the device. If
    the configured file exists, the path is bound and exactly one write, of
    0, is issued; if it is configured but missing, a warning is logged and
    [led_path] is reset to [None]; if none is configured, [led_path] is
    [None] from the start. In the last two cases construction returns, and no
    later method call on the object ever writes to a device. *)
Theorem construction_degrades_without_device cfg env st w :
  exists r d evs,
    new_DoorController cfg env st w =
      (r, mkWorld (heap w ++ [Some d]) (_door_controller_instance w) (trace w ++ evs)) /\
    status d = st /\ locked (_door_lock d) = false /\
    match truthy (LED_SYSFS_PATH cfg) with
    | Some s =>
        if path_exists env (MkPath s) then
          led_path d = Some (MkPath s) /\
          writes evs = [(MkPath s, "0"%string)] /\
          (r = Ret (length (heap w)) \/
           exists e n, r = Raise e /\ write_fault env n = Some e /\ is_Exception e = false)
        else
          r = Ret (length (heap w)) /\ led_path d = None /\
          evs = [EvLog WARNING (MsgLedNotFound (MkPath s))]
    | None =>
        r = Ret (length (heap w)) /\ led_path d = None /\ evs = [EvLog INFO MsgLedDisabled]
    end /\
    (led_path d = None ->
     forall cs,
       writes (trace (run_calls cfg env (length (heap w)) cs (snd (new_DoorController cfg env st w)))) =
         writes (trace w) /\
       exists d',
         heap (run_calls cfg env (length (heap w)) cs (snd (new_DoorController cfg env st w)))
           !! length (heap w) = Some (Some d') /\
         led_path d' = None).
Proof.
  destruct (construct cfg env st w) as (r & d & evs & E & I & S & L & C).
  exists r, d, evs. split; [exact E|]. split; [exact S|].
  split; [rewrite L; reflexivity|]. split; [exact C|].
  intros N cs. rewrite E. cbn [snd].
  set (w1 := mkWorld (heap w ++ [Some d]) (_door_controller_instance w) (trace w ++ evs)).
  assert (H1 : heap w1 !! length (heap w) = Some (Some d)).
  { apply list_lookup_middle. reflexivity. }
  destruct (run_calls_focus cfg env (length (heap w)) cs w1 d H1) as (d' & ev' & E' & _ & P' & W').
  rewrite E'. split.
  - cbn [trace focus w1]. rewrite !writes_app, (W' N), app_nil_r.
    assert (writes evs = []) as ->; [|apply app_nil_r].
    destruct (truthy (LED_SYSFS_PATH cfg)) as [s|].
    + destruct (path_exists env (MkPath s)).
      * destruct C as (C1 & _). congruence.
      * destruct C as (_ & _ & ->). reflexivity.
    + destruct C as (_ & _ & ->). reflexivity.
  - exists d'. split; [|congruence].
    apply focus_lookup. eapply lookup_lt_Some. exact H1.
Qed.

(** C10: once [get_door_controller] has created the singleton, every later
    call returns the same address and changes nothing, whatever methods were
    called on the controller in between; and [__init__] called again on it,
    with either value of [status], changes nothing either. *)
Theorem get_door_controller_idempotent cfg env w a w1 :
  _door_controller_instance w = None ->
  get_door_controller cfg env w = (Ret a, w1) ->
  forall cs,
    get_door_controller cfg env (run_calls cfg env a cs w1) =
      (Ret a, run_calls cfg env a cs w1) /\
    forall st,
      __init__ cfg env a st (run_calls cfg env a cs w1) =
        (Ret PyNone, run_calls cfg env a cs w1).
Proof.
  intros N G cs. unfold get_door_controller in G. rewrite N in G.
  revert G. unfold_bind.
  destruct (construct cfg env false w) as (r & d & evs & E & _).
  assert (A : forall a', r = Ret a' -> a' = length (heap w)).
  { intros a'. revert E. unfold new_DoorController.
    destruct (__init__ cfg env _ false _) as [[v|e] w2]; congruence. }
  rewrite E. destruct r as [a'|e]; [|discriminate].
  unfold set_instance. cbn [heap trace]. intros [= <- <-].
  set (w1 := mkWorld (heap w ++ [Some d]) (Some a') (trace w ++ evs)).
  assert (H1 : heap w1 !! a' = Some (Some d)).
  { rewrite (A a' eq_refl). apply list_lookup_middle. reflexivity. }
  destruct (run_calls_focus cfg env a' cs w1 d H1) as (d' & ev' & E' & _).
  rewrite E'. split.
  - reflexivity.
  - intros st. eapply init_again. apply focus_lookup. eapply lookup_lt_Some. exact H1.
Qed.

Lemma get_door_controller_idempotent_witness :
  get_door_controller Sample.cfg Sample.env_ok
    (run_calls Sample.cfg Sample.env_ok 0%nat [CallOpen; CallSetLed 128; CallInit true]
       (snd (get_door_controller Sample.cfg Sample.env_ok Sample.empty))) =
    (Ret 0%nat,
     run_calls Sample.cfg Sample.env_ok 0%nat [CallOpen; CallSetLed 128; CallInit true]
       (snd (get_door_controller Sample.cfg Sample.env_ok Sample.empty))) /\
  forall st,
    __init__ Sample.cfg Sample.env_ok 0%nat st
      (run_calls Sample.cfg Sample.env_ok 0%nat [CallOpen; CallSetLed 128; CallInit true]
         (snd (get_door_controller Sample.cfg Sample.env_ok Sample.empty))) =
      (Ret PyNone,
       run_calls Sample.cfg Sample.env_ok 0%nat [CallOpen; CallSetLed 128; CallInit true]
         (snd (get_door_controller Sample.cfg Sample.env_ok Sample.empty))).
Proof.
  apply (get_door_controller_idempotent Sample.cfg Sample.env_ok Sample.empty 0%nat
           (snd (get_door_controller Sample.cfg Sample.env_ok Sample.empty)));
    reflexivity.
Defined.

Lemma construction_degrades_without_device_witness :
  exists r d evs,
    new_DoorController Sample.cfg Sample.env_absent false Sample.empty =
      (r, mkWorld (heap Sample.empty ++ [Some d]) (_door_controller_instance Sample.empty)
            (trace Sample.empty ++ evs)) /\
    status d = false /\ locked (_door_lock d) = false /\
    match truthy (LED_SYSFS_PATH Sample.cfg) with
    | Some s =>
        if path_exists Sample.env_absent (MkPath s) then
          led_path d = Some (MkPath s) /\
          writes evs = [(MkPath s, "0"%string)] /\
          (r = Ret (length (heap Sample.empty)) \/
           exists e n, r = Raise e /\ write_fault Sample.env_absent n = Some e /\
                       is_Exception e = false)
        else
          r = Ret (length (heap Sample.empty)) /\ led_path d = None /\
          evs = [EvLog WARNING (MsgLedNotFound (MkPath s))]
    | None =>
        r = Ret (length (heap Sample.empty)) /\ led_path d = None /\
        evs = [EvLog INFO MsgLedDisabled]
    end /\
    (led_path d = None ->
     forall cs,
       writes (trace (run_calls Sample.cfg Sample.env_absent (length (heap Sample.empty)) cs
                        (snd (new_DoorController Sample.cfg Sample.env_absent false Sample.empty)))) =
         writes (trace Sample.empty) /\
       exists d',
         heap (run_calls Sample.cfg Sample.env_absent (length (heap Sample.empty)) cs
                 (snd (new_DoorController Sample.cfg Sample.env_absent false Sample.empty)))
           !! length (heap Sample.empty) = Some (Some d') /\
         led_path d' = None).
Proof.
  exact (construction_degrades_without_device Sample.cfg Sample.env_absent false Sample.empty).
Defined.

(** ** Threads *)

Section ThreadSteps.

Context (cfg : Config) (env : Env) (self : addr) (w : World) (d : DoorController).
Hypothesis Hd : heap w !! self = Some (Some d).

(** Every step of a thread rewrites the controller in place and appends
    events; this is the step, program point by program point. *)
Lemma thread_step_focus p :
  thread_step cfg env self p w =
    match p with
    | AtAcquire =>
        if locked (_door_lock d)
        then (AtBusyReturn, focus w self d [EvAcquire self false; EvLog INFO MsgBusy])
        else (AtAssert,
              focus w self (mkDoor (_initialized d) (status d) (mkLock true) (led_path d))
                [EvAcquire self true])
    | AtAssert =>
        (match fst (led_events env (trace w ++ [EvLog INFO MsgOpen]) (led_path d) 255) with
         | Ret _ => AtSetOpen
         | Raise e => AtFinally (Some e)
         end,
         focus w self d
           (EvLog INFO MsgOpen ::
            snd (led_events env (trace w ++ [EvLog INFO MsgOpen]) (led_path d) 255)))
    | AtSetOpen =>
        (AtSleep, focus w self (mkDoor (_initialized d) true (_door_lock d) (led_path d)) [])
    | AtSleep =>
        (match sleep_fault env (length (trace w)) with
         | None => AtDeassert
         | Some e => AtFinally (Some e)
         end,
         focus w self d [EvSleep (DOOR_OPEN_DURATION cfg) (sleep_fault env (length (trace w)))])
    | AtDeassert =>
        (match fst (led_events env (trace w ++ [EvLog INFO MsgClose]) (led_path d) 0) with
         | Ret _ => AtSetClosed
         | Raise e => AtFinally (Some e)
         end,
         focus w self d
           (EvLog INFO MsgClose ::
            snd (led_events env (trace w ++ [EvLog INFO MsgClose]) (led_path d) 0)))
    | AtSetClosed =>
        (AtFinally None,
         focus w self (mkDoor (_initialized d) false (_door_lock d) (led_path d)) [])
    | AtFinally pending =>
        if locked (_door_lock d)
        then (AtExit (match pending with None => Ret PyNone | Some e => Raise e end),
              focus w self (mkDoor (_initialized d) (status d) (mkLock false) (led_path d))
                [EvRelease self])
        else (AtExit (Raise RuntimeError), focus w self d [])
    | AtBusyReturn => (AtBusyReturn, focus w self d [])
    | AtExit r => (AtExit r, focus w self d [])
    end.
Proof.
  pose proof (self_valid self w d Hd) as V.
  destruct p; cbn [thread_step]; unfold advance; unfold_bind;
    rewrite <- (focus_id w self d Hd) at 1.
  - rewrite acquire_focus by exact V. destruct (locked (_door_lock d)).
    + rewrite log_focus by exact V. reflexivity.
    + reflexivity.
  - rewrite log_focus, _set_led_focus by exact V. cbn [app].
    destruct (led_events env _ (led_path d) 255) as [[v|e] evs]; reflexivity.
  - rewrite set_status_focus by exact V. reflexivity.
  - rewrite sleep_focus by exact V. rewrite app_nil_r.
    destruct (sleep_fault env _); reflexivity.
  - rewrite log_focus, _set_led_focus by exact V. cbn [app].
    destruct (led_events env _ (led_path d) 0) as [[v|e] evs]; reflexivity.
  - rewrite set_status_focus by exact V. reflexivity.
  - rewrite release_focus by exact V. destruct (locked (_door_lock d)); reflexivity.
  - reflexivity.
  - reflexivity.
Qed.

End ThreadSteps.

Ltac thread_steps F :=
  repeat (rewrite (thread_step_focus _ _ _ _ _ (F _ _)), focus_focus);
  cbn [locked _door_lock _initialized led_path status trace focus]; norm_app;
  rewrite ?app_nil_r.

Lemma run_alone_open_focus cfg env self w d evs :
  (self < length (heap w))%nat ->
  exists p,
    run_alone cfg env self 7 AtAcquire (focus w self d evs) =
      (p, snd (open cfg env self (focus w self d evs))) /\
    finished p = true /\
    match p with
    | AtExit r => r = fst (open cfg env self (focus w self d evs)) /\ locked (_door_lock d) = false
    | _ => fst (open cfg env self (focus w self d evs)) = Ret PyNone /\ locked (_door_lock d) = true
    end.
Proof.
  intros V.
  assert (F : forall d' evs', heap (focus w self d' evs') !! self = Some (Some d')).
  { intros. apply focus_lookup. exact V. }
  cbn [run_alone]. destruct (locked (_door_lock d)) eqn:L.
  - rewrite (open_focus_busy cfg env w self V d evs L).
    rewrite (thread_step_focus _ _ _ _ _ (F _ _)), L, focus_focus.
    thread_steps F. eexists. split; [reflexivity|]. repeat split.
  - unfold open. unfold_bind.
    rewrite acquire_focus, L by exact V. cbn [negb app].
    unfold try_finally. unfold_bind.
    rewrite log_focus, _set_led_focus by exact V. cbn [led_path].
    rewrite (thread_step_focus _ _ _ _ _ (F _ _)), L, focus_focus.
    rewrite (thread_step_focus _ _ _ _ _ (F _ _)), focus_focus.
    cbn [led_path trace focus]. norm_app. rewrite ?app_nil_r.
    destruct (led_events env _ (led_path d) 255) as [[v1|e1] ev1]; cbn [fst snd].
    + rewrite set_status_focus, sleep_focus by exact V.
      cbn [_initialized _door_lock led_path status].
      rewrite (thread_step_focus _ _ _ _ _ (F _ _)), focus_focus.
      rewrite (thread_step_focus _ _ _ _ _ (F _ _)), focus_focus.
      cbn [_initialized _door_lock led_path status trace focus]. norm_app.
      rewrite ?app_nil_r.
      destruct (sleep_fault env _) as [e2|]; cbn [outcome].
      * rewrite release_focus by exact V. cbn [locked _door_lock].
        thread_steps F. eexists. split; [reflexivity|]. repeat split.
      * rewrite log_focus, _set_led_focus by exact V. cbn [led_path].
        rewrite (thread_step_focus _ _ _ _ _ (F _ _)), focus_focus.
        cbn [_initialized _door_lock led_path status trace focus]. norm_app.
        rewrite ?app_nil_r.
        destruct (led_events env _ (led_path d) 0) as [[v3|e3] ev3]; cbn [fst snd].
        -- rewrite set_status_focus, release_focus by exact V.
           thread_steps F. eexists. split; [reflexivity|]. repeat split.
        -- rewrite release_focus by exact V.
           thread_steps F. eexists. split; [reflexivity|]. repeat split.
    + rewrite release_focus by exact V. cbn [locked _door_lock].
      thread_steps F. eexists. split; [reflexivity|]. repeat split.
Qed.

(** X11: A thread that runs the seven steps of [open] with nobody in between ends
    where the method call ends: same world, same result, busy return exactly
    when the lock was taken. *)
Lemma run_alone_open cfg env self w d :
  heap w !! self = Some (Some d) ->
  exists p,
    run_alone cfg env self 7 AtAcquire w = (p, snd (open cfg env self w)) /\
    finished p = true /\
    match p with
    | AtExit r => r = fst (open cfg env self w) /\ locked (_door_lock d) = false
    | _ => fst (open cfg env self w) = Ret PyNone /\ locked (_door_lock d) = true
    end.
Proof.
  intros Hd.
  pose proof (run_alone_open_focus cfg env self w d [] (self_valid self w d Hd)) as H.
  rewrite (focus_id w self d Hd) in H. exact H.
Qed.

(** ** Counting threads and lock events *)

Lemma count_insert f ps i p p' :
  ps !! i = Some p ->
  (count f (<[i := p']> ps) + (if f p then 1 else 0) =
   count f ps + (if f p' then 1 else 0))%nat.
Proof.
  revert i. induction ps as [|q ps IH]; intros [|i] H; try discriminate.
  - injection H as ->. cbn. destruct (f p), (f p'); lia.
  - specialize (IH i H). change (<[S i := p']> (q :: ps)) with (q :: <[i := p']> ps).
    cbn [count]. destruct (f p), (f p'), (f q); lia.
Qed.

Lemma count_pos f ps i p :
  ps !! i = Some p -> f p = true -> (1 <= count f ps)%nat.
Proof.
  revert i. induction ps as [|q ps IH]; intros [|i] H F; try discriminate.
  - injection H as ->. cbn. rewrite F. lia.
  - specialize (IH i H F). cbn [count]. destruct (f q); lia.
Qed.

Lemma count_replicate f n p :
  count f (replicate n p) = if f p then n else 0%nat.
Proof. induction n as [|n IH]; cbn; [|rewrite IH]; destruct (f p); lia. Qed.

Lemma count_zero f ps i p :
  count f ps = 0%nat -> ps !! i = Some p -> f p = false.
Proof.
  intros Z H. destruct (f p) eqn:F; [|reflexivity].
  pose proof (count_pos f ps i p H F). lia.
Qed.

(** Every thread is at exactly one of: the acquire, inside the section,
    returned busy, out of the [try] statement. *)
Lemma count_partition ps :
  length ps =
    (count is_at_acquire ps + count in_section ps + count is_busy_return ps + count is_exit ps)%nat.
Proof.
  induction ps as [|p ps IH]; [reflexivity|].
  cbn [length count]. rewrite IH. destruct p; cbn; lia.
Qed.

(** With at most one thread satisfying [f], two threads that do are one. *)
Lemma count_unique f ps i j p q :
  (count f ps <= 1)%nat ->
  ps !! i = Some p -> f p = true ->
  ps !! j = Some q -> f q = true ->
  i = j.
Proof.
  revert i j. induction ps as [|x ps IH]; intros i j C Hi Fp Hj Fq; [discriminate|].
  cbn [count] in C. destruct i as [|i], j as [|j]; cbn in Hi, Hj.
  - reflexivity.
  - injection Hi as ->. rewrite Fp in C. pose proof (count_pos f ps j q Hj Fq). lia.
  - injection Hj as ->. rewrite Fq in C. pose proof (count_pos f ps i p Hi Fp). lia.
  - f_equal. apply IH; try assumption. destruct (f x); lia.
Qed.

Lemma admissions_app t1 t2 : admissions (t1 ++ t2) = (admissions t1 + admissions t2)%nat.
Proof. unfold admissions. rewrite filter_app, length_app. reflexivity. Qed.

Lemma releases_app t1 t2 : releases (t1 ++ t2) = (releases t1 + releases t2)%nat.
Proof. unfold releases. rewrite filter_app, length_app. reflexivity. Qed.

Lemma activity_app t1 t2 : activity (t1 ++ t2) = activity t1 ++ activity t2.
Proof. apply omap_app. Qed.

Lemma no_lock_events evs :
  Forall (fun ev => is_lock_event ev = false) evs ->
  admissions evs = 0%nat /\ releases evs = 0%nat.
Proof.
  induction 1 as [|ev evs H _ [IA IR]]; [split; reflexivity|].
  unfold admissions, releases in *. destruct ev as [| | |? []|]; try discriminate; cbn;
    rewrite ?decide_False by discriminate; split; assumption.
Qed.

Lemma led_events_admissions env t lp b : admissions (snd (led_events env t lp b)) = 0%nat.
Proof. apply no_lock_events, led_events_no_lock. Qed.

Lemma led_events_releases env t lp b : releases (snd (led_events env t lp b)) = 0%nat.
Proof. apply no_lock_events, led_events_no_lock. Qed.

Lemma sched_step_at cfg env self ps w i p :
  ps !! i = Some p ->
  sched_step cfg env self (ps, w) i =
    (<[i := fst (thread_step cfg env self p w)]> ps, snd (thread_step cfg env self p w)).
Proof.
  intros H. unfold sched_step. cbn [fst snd]. rewrite H.
  destruct (thread_step cfg env self p w). reflexivity.
Qed.

Lemma sched_step_idle cfg env self ps w i :
  ps !! i = None -> sched_step cfg env self (ps, w) i = (ps, w).
Proof. intros H. unfold sched_step. cbn [fst snd]. rewrite H. reflexivity. Qed.

Lemma run_schedule_app cfg env self s1 s2 st :
  run_schedule cfg env self (s1 ++ s2) st =
    run_schedule cfg env self s2 (run_schedule cfg env self s1 st).
Proof. apply fold_left_app. Qed.

(** An invariant of every step is an invariant of every schedule. *)
Lemma run_schedule_ind cfg env self (P : list pc * World -> Prop) :
  (forall st i, P st -> P (sched_step cfg env self st i)) ->
  forall sched st, P st -> P (run_schedule cfg env self sched st).
Proof.
  intros Hstep sched. induction sched as [|i sched IH]; intros st H; [exact H|].
  cbn. apply IH, Hstep, H.
Qed.

Lemma admissions_cons ev t :
  admissions (ev :: t) = ((if is_admission ev then 1 else 0) + admissions t)%nat.
Proof.
  unfold admissions. rewrite filter_cons.
  destruct (is_admission ev); [rewrite decide_True by reflexivity | rewrite decide_False by discriminate];
    reflexivity.
Qed.

Lemma releases_cons ev t :
  releases (ev :: t) = ((if is_release ev then 1 else 0) + releases t)%nat.
Proof.
  unfold releases. rewrite filter_cons.
  destruct (is_release ev); [rewrite decide_True by reflexivity | rewrite decide_False by discriminate];
    reflexivity.
Qed.

(** ** The gate invariant *)

Ltac step_cases cfg env self w d Hd L p ps i Hi :=
  rewrite (sched_step_at cfg env self ps w i p Hi),
    (thread_step_focus cfg env self w d Hd p);
  destruct p as [ | | | | | | [?|] | | [?|?]]; rewrite ?L;
  repeat match goal with
  | |- context [led_events env ?t ?lp ?b] =>
      let A := fresh "A" in let R := fresh "R" in let W := fresh "W" in
      pose proof (led_events_admissions env t lp b) as A;
      pose proof (led_events_releases env t lp b) as R;
      pose proof (led_events_swallowed env t lp b) as W;
      destruct (led_events env t lp b) as [[?|?] ?];
      cbn [fst snd] in A, R
  | |- context [sleep_fault env ?n] =>
      let F := fresh "F" in destruct (sleep_fault env n) eqn:F
  end;
  cbn [fst snd].

Ltac count_facts ps i Hi :=
  match goal with
  | |- context [<[i := ?p']> ps] =>
      pose proof (count_insert in_section ps i _ p' Hi);
      pose proof (count_insert is_exit ps i _ p' Hi);
      pose proof (count_insert is_at_acquire ps i _ p' Hi);
      pose proof (count_insert faulted ps i _ p' Hi);
      pose proof (count_insert admitted ps i _ p' Hi)
  end;
  let P := fresh "P" in
  pose proof (count_pos in_section ps i _ Hi) as P;
  cbn [in_section is_exit is_at_acquire faulted admitted orb] in *;
  try specialize (P eq_refl).

Lemma gate_inv_step cfg env self a0 r0 st i :
  gate_inv self a0 r0 st -> gate_inv self a0 r0 (sched_step cfg env self st i).
Proof.
  destruct st as [ps w]. intros (d & Hd & Hsec & Hadm & Hrel & Hfree).
  cbn [fst snd] in *.
  destruct (ps !! i) as [p|] eqn:Hi.
  2: { rewrite sched_step_idle by exact Hi. exists d. auto. }
  pose proof (self_valid self w d Hd) as V.
  destruct (locked (_door_lock d)) eqn:L;
    step_cases cfg env self w d Hd L p ps i Hi;
    count_facts ps i Hi;
    (eexists; split; [apply focus_lookup; exact V|]);
    cbn [fst snd locked _door_lock trace focus];
    rewrite ?L, ?admissions_app, ?releases_app, ?admissions_cons, ?releases_cons, ?length_insert;
    cbn [is_admission is_release admissions releases filter length list_filter];
    repeat split; try lia; try discriminate;
    try (intros; lia).
Qed.

Lemma gate_inv_init self n w d :
  heap w !! self = Some (Some d) ->
  locked (_door_lock d) = false ->
  gate_inv self (admissions (trace w)) (releases (trace w)) (callers n w).
Proof.
  intros Hd L. exists d. unfold callers. cbn [fst snd].
  rewrite !count_replicate, L, length_replicate. cbn. repeat split; try lia; exact Hd.
Qed.

Lemma gate_inv_run cfg env self n w d sched :
  heap w !! self = Some (Some d) ->
  locked (_door_lock d) = false ->
  gate_inv self (admissions (trace w)) (releases (trace w))
    (run_schedule cfg env self sched (callers n w)).
Proof.
  intros Hd L. apply run_schedule_ind.
  - intros st i. apply gate_inv_step.
  - eapply gate_inv_init; eassumption.
Qed.

(** ** [status] and the device while threads interleave *)

Lemma status_inv_step cfg env self st i d :
  heap (snd st) !! self = Some (Some d) ->
  status_inv self st -> status_inv self (sched_step cfg env self st i).
Proof.
  destruct st as [ps w]. cbn [fst snd]. intros Hd Hinv.
  destruct (ps !! i) as [p|] eqn:Hi.
  2: { rewrite sched_step_idle by exact Hi. exact Hinv. }
  pose proof (self_valid self w d Hd) as V.
  assert (Hlen : (i < length ps)%nat) by (eapply lookup_lt_Some; exact Hi).
  specialize (Hinv d Hd). cbn [fst snd] in Hinv.
  destruct (locked (_door_lock d)) eqn:L;
    step_cases cfg env self w d Hd L p ps i Hi;
    intros d2 Hd2 Hst; cbn [fst snd] in Hd2 |- *;
    rewrite focus_lookup in Hd2 by exact V; injection Hd2 as <-; cbn [status] in Hst;
    first
      [ discriminate Hst
      | eexists i, _; split; [apply list_lookup_insert_eq; exact Hlen | reflexivity]
      | destruct (Hinv Hst) as (j & q & Hj & Hq);
        destruct (decide (j = i)) as [->|N];
        [ rewrite Hi in Hj; injection Hj as <-; discriminate Hq
        | exists j, q; split; [rewrite list_lookup_insert_ne by congruence; exact Hj | exact Hq] ] ].
Qed.

Lemma flat_map_insert_same {A B} (f : A -> list B) ps i p p' :
  ps !! i = Some p -> f p' = f p ->
  flat_map f (<[i := p']> ps) = flat_map f ps.
Proof.
  revert i. induction ps as [|q ps IH]; intros [|i] H E; try discriminate.
  - injection H as ->. cbn. rewrite E. reflexivity.
  - change (<[S i := p']> (q :: ps)) with (q :: <[i := p']> ps).
    cbn [flat_map]. rewrite (IH i H E). reflexivity.
Qed.

Lemma flat_map_single (f : pc -> list event) ps i p :
  (forall q, admitted q = false -> f q = []) ->
  (count admitted ps <= 1)%nat ->
  ps !! i = Some p -> admitted p = true ->
  flat_map f ps = f p.
Proof.
  intros Hf. revert i. induction ps as [|q ps IH]; intros [|i] C H P; try discriminate.
  - injection H as ->. cbn [count flat_map] in *. rewrite P in C.
    assert (Z : count admitted ps = 0%nat) by (cbv iota in C; lia).
    assert (E : flat_map f ps = []).
    { clear -Z Hf. induction ps as [|x ps IH]; [reflexivity|].
      cbn [count flat_map] in *. destruct (admitted x) eqn:X; [lia|].
      rewrite (Hf x X), IH by lia. reflexivity. }
    rewrite E. apply app_nil_r.
  - cbn [count flat_map] in *. pose proof (count_pos admitted ps i p H P).
    destruct (admitted q) eqn:Q; [lia|].
    rewrite (Hf q Q). cbn [app]. apply (IH i); [lia | exact H | exact P].
Qed.

Lemma activity_log l m t : activity (EvLog l m :: t) = activity t.
Proof. reflexivity. Qed.

Lemma progress_idle cfg lp q : admitted q = false -> progress cfg lp q = [].
Proof. destruct q; cbn; congruence. Qed.

Lemma cycle_inv_step cfg env self lp t0 a0 r0 st i :
  fault_free env ->
  gate_inv self a0 r0 st ->
  cycle_inv cfg self lp t0 st -> cycle_inv cfg self lp t0 (sched_step cfg env self st i).
Proof.
  destruct st as [ps w]. intros [Hdev Hsl] (d & Hd & Hsec & _) (Hfl & (d1 & Hd1 & Hlp) & Hact).
  cbn [fst snd] in *. rewrite Hd in Hd1. injection Hd1 as <-. subst lp.
  destruct (ps !! i) as [p|] eqn:Hi.
  2: { rewrite sched_step_idle by exact Hi. repeat split; eauto. }
  pose proof (self_valid self w d Hd) as V.
  assert (Hlen : (i < length ps)%nat) by (eapply lookup_lt_Some; exact Hi).
  pose proof (count_zero faulted ps i p Hfl Hi) as NF.
  destruct (locked (_door_lock d)) eqn:L;
    step_cases cfg env self w d Hd L p ps i Hi;
    try discriminate NF;
    repeat match goal with
    | W : (forall n e, write_fault env n = Some e -> _) -> _ |- _ =>
        destruct (W Hdev) as (? & ? & _ & _ & ?); clear W
    end;
    try congruence;
    try (rewrite Hsl in *; discriminate);
    unfold cycle_inv; cbn [fst snd];
    count_facts ps i Hi; try lia;
    (split; [lia|]);
    (split; [eexists; split; [apply focus_lookup; exact V | reflexivity]|]);
    cbn [fst snd trace focus]; intros Hle;
    rewrite activity_app, Hact by lia; rewrite <- app_assoc; f_equal;
    first
      [ rewrite app_nil_r; symmetry; apply (flat_map_insert_same _ _ _ _ _ Hi); reflexivity
      | rewrite (flat_map_single _ ps i _ (progress_idle cfg (led_path d)) ltac:(lia) Hi eq_refl),
          (flat_map_single _ (<[i := _]> ps) i _ (progress_idle cfg (led_path d)) Hle
             (list_lookup_insert_eq _ _ _ Hlen) eq_refl);
        cbn [progress];
        repeat match goal with E : (_, _) = (_, _) |- _ => injection E as _ -> end;
        rewrite ?activity_log, ?Hsl;
        repeat match goal with E : activity _ = _ |- _ => rewrite E end;
        rewrite <- ?app_assoc; reflexivity ].
Qed.

Lemma status_inv_run cfg env self n w d sched :
  heap w !! self = Some (Some d) ->
  locked (_door_lock d) = false ->
  status d = false ->
  status_inv self (run_schedule cfg env self sched (callers n w)).
Proof.
  intros Hd L S.
  enough (gate_inv self (admissions (trace w)) (releases (trace w))
            (run_schedule cfg env self sched (callers n w)) /\
          status_inv self (run_schedule cfg env self sched (callers n w))) as [_ H]; [exact H|].
  apply run_schedule_ind.
  - intros st i [G T]. split; [apply gate_inv_step; exact G|].
    destruct G as (d' & Hd' & _). eapply status_inv_step; eassumption.
  - split; [eapply gate_inv_init; eassumption|].
    intros d' Hd'. cbn [callers snd] in Hd'. congruence.
Qed.

Lemma flat_map_replicate_nil {A B} (f : A -> list B) n x :
  f x = [] -> flat_map f (replicate n x) = [].
Proof. intros E. induction n as [|n IH]; cbn; [|rewrite E, IH]; reflexivity. Qed.

Lemma cycle_inv_run cfg env self n w d sched :
  fault_free env ->
  heap w !! self = Some (Some d) ->
  locked (_door_lock d) = false ->
  cycle_inv cfg self (led_path d) (trace w) (run_schedule cfg env self sched (callers n w)).
Proof.
  intros F Hd L.
  enough (gate_inv self (admissions (trace w)) (releases (trace w))
            (run_schedule cfg env self sched (callers n w)) /\
          cycle_inv cfg self (led_path d) (trace w)
            (run_schedule cfg env self sched (callers n w))) as [_ H]; [exact H|].
  apply run_schedule_ind.
  - intros st i [G C]. split; [apply gate_inv_step; exact G|].
    eapply cycle_inv_step; eassumption.
  - split; [eapply gate_inv_init; eassumption|].
    unfold cycle_inv, callers. cbn [fst snd]. rewrite count_replicate. cbn [faulted].
    split; [reflexivity|]. split; [eauto|].
    intros _. rewrite flat_map_replicate_nil by reflexivity. symmetry. apply app_nil_r.
Qed.

(** A thread that returned busy stays there, a thread that was admitted
    stays admitted, and no thread goes back to the acquire. *)
Lemma thread_step_keeps cfg env self p w :
  (is_busy_return p = true -> is_busy_return (fst (thread_step cfg env self p w)) = true) /\
  (admitted p = true -> admitted (fst (thread_step cfg env self p w)) = true) /\
  (is_at_acquire p = false -> is_at_acquire (fst (thread_step cfg env self p w)) = false).
Proof.
  destruct p; cbn [thread_step]; unfold advance;
    repeat match goal with
    | |- context [match ?x with _ => _ end] => destruct x
    end;
    cbn; repeat split; congruence.
Qed.

Lemma count_grows cfg env self (f : pc -> bool) st i :
  (forall p w, f p = true -> f (fst (thread_step cfg env self p w)) = true) ->
  (count f (fst st) <= count f (fst (sched_step cfg env self st i)))%nat.
Proof.
  intros Hf. destruct st as [ps w]. cbn [fst].
  destruct (ps !! i) as [p|] eqn:Hi.
  - rewrite (sched_step_at cfg env self ps w i p Hi). cbn [fst].
    pose proof (count_insert f ps i p (fst (thread_step cfg env self p w)) Hi) as C.
    specialize (Hf p w). destruct (f p); [rewrite Hf in C by reflexivity|];
      destruct (f (fst (thread_step cfg env self p w))); lia.
  - rewrite sched_step_idle by exact Hi. cbn [fst]. lia.
Qed.

Lemma count_grows_run cfg env self (f : pc -> bool) sched st :
  (forall p w, f p = true -> f (fst (thread_step cfg env self p w)) = true) ->
  (count f (fst st) <= count f (fst (run_schedule cfg env self sched st)))%nat.
Proof.
  intros Hf. apply (run_schedule_ind cfg env self (fun st' => (count f (fst st) <= count f (fst st'))%nat)).
  - intros st' i H. pose proof (count_grows cfg env self f st' i Hf). lia.
  - lia.
Qed.

Lemma length_sched_step cfg env self st i :
  length (fst (sched_step cfg env self st i)) = length (fst st).
Proof.
  destruct st as [ps w]. unfold sched_step. cbn [fst snd].
  destruct (ps !! i); [|reflexivity].
  destruct (thread_step cfg env self p w). cbn [fst]. apply length_insert.
Qed.

Lemma length_run_schedule cfg env self sched st :
  length (fst (run_schedule cfg env self sched st)) = length (fst st).
Proof.
  apply (run_schedule_ind cfg env self (fun st' => length (fst st') = length (fst st))).
  - intros st' i H. rewrite length_sched_step. exact H.
  - reflexivity.
Qed.

Lemma count_admitted ps : count admitted ps = (count in_section ps + count is_exit ps)%nat.
Proof.
  induction ps as [|p ps IH]; [reflexivity|].
  cbn [count]. rewrite IH. destruct p; cbn; lia.
Qed.

Lemma count_unfinished ps :
  count (fun p => negb (finished p)) ps = (count is_at_acquire ps + count in_section ps)%nat.
Proof.
  induction ps as [|p ps IH]; [reflexivity|].
  cbn [count]. rewrite IH. destruct p; cbn; lia.
Qed.

Lemma count_exists f ps :
  (1 <= count f ps)%nat -> exists i p, ps !! i = Some p /\ f p = true.
Proof.
  induction ps as [|q ps IH]; cbn [count]; [lia|]. intros H.
  destruct (f q) eqn:Q.
  - exists 0%nat, q. split; [reflexivity | exact Q].
  - destruct IH as (i & p & Hi & Hp); [lia|]. exists (S i), p. split; assumption.
Qed.

(** While nobody has released the lock, once every caller has tried it,
    one caller is in the section and all the others have returned busy. *)
Lemma race_outcome self a0 r0 st :
  gate_inv self a0 r0 st ->
  releases (trace (snd st)) = r0 ->
  count is_at_acquire (fst st) = 0%nat ->
  (1 <= length (fst st))%nat ->
  count in_section (fst st) = 1%nat /\
  count is_busy_return (fst st) = (length (fst st) - 1)%nat /\
  count is_exit (fst st) = 0%nat.
Proof.
  intros (d & Hd & Hsec & Hadm & Hrel & Hfree) R Z N.
  pose proof (count_partition (fst st)) as Part.
  destruct (locked (_door_lock d)).
  - lia.
  - specialize (Hfree eq_refl R). lia.
Qed.

(** ** Mutual exclusion *)

(** C3 fails on the code: three callers race the idle gate, the first one
    wins and the two others are turned away before any release; the hold
    sleep of the winner is interrupted, and when all three have finished
    nobody has run the full cycle: 255 was written, 0 never. *)
Lemma open_full_cycle_counterexample :
  let st :=
    run_schedule Sample.cfg Sample.env_interrupted 0%nat [0; 1; 2]%nat (callers 3 Sample.idle) in
  let fin :=
    run_schedule Sample.cfg Sample.env_interrupted 0%nat [0; 0; 0; 0; 0; 0]%nat st in
  releases (trace (snd st)) = releases (trace Sample.idle) /\
  count is_at_acquire (fst st) = 0%nat /\
  fst fin = [AtExit (Raise KeyboardInterrupt); AtBusyReturn; AtBusyReturn] /\
  activity (trace (snd fin)) =
    [EvWrite (MkPath Sample.work_led) "255" None; EvSleep 3 (Some KeyboardInterrupt)] /\
  writes (trace (snd fin)) = [(MkPath Sample.work_led, "255"%string)].
Proof. vm_compute. repeat split. Qed.

(** C3, amended: whatever the schedule of [n] callers of [open] on an idle
    gate and whatever fails, at most one of them is between its acquire and
    its release; a caller that tries the lock while another is in the
    section returns in that very step, leaving only the failed acquire and a
    log record; and when all callers have tried before anyone released,
    exactly one is in the section and the other [n - 1] have returned busy,
    and once all have finished exactly one caller has been through the
    section. If no fault propagates, that caller returned and has run the
    assert, the hold and the de-assert, exactly once and in this order, and
    nobody else touched the device. *)
Theorem open_mutual_exclusion cfg env self n w d sched :
  heap w !! self = Some (Some d) ->
  locked (_door_lock d) = false ->
  let st := run_schedule cfg env self sched (callers n w) in
  (count in_section (fst st) <= 1)%nat /\
  (forall i,
     fst st !! i = Some AtAcquire ->
     (1 <= count in_section (fst st))%nat ->
     sched_step cfg env self st i =
       (<[i := AtBusyReturn]> (fst st),
        mkWorld (heap (snd st)) (_door_controller_instance (snd st))
          (trace (snd st) ++ [EvAcquire self false; EvLog INFO MsgBusy]))) /\
  (releases (trace (snd st)) = releases (trace w) ->
   count is_at_acquire (fst st) = 0%nat ->
   (1 <= n)%nat ->
   count in_section (fst st) = 1%nat /\
   count is_busy_return (fst st) = (n - 1)%nat /\
   forall rest,
     let fin := run_schedule cfg env self rest st in
     count (fun p => negb (finished p)) (fst fin) = 0%nat ->
     count is_busy_return (fst fin) = (n - 1)%nat /\
     count is_exit (fst fin) = 1%nat /\
     (fault_free env ->
      (exists i v, fst fin !! i = Some (AtExit (Ret v))) /\
      activity (trace (snd fin)) =
        activity (trace w) ++
        led_skeleton (led_path d) 255 ++
        EvSleep (DOOR_OPEN_DURATION cfg) None :: led_skeleton (led_path d) 0)).
Proof.
  intros Hd L st.
  pose proof (gate_inv_run cfg env self n w d sched Hd L) as G. fold st in G.
  assert (Len : length (fst st) = n).
  { unfold st. rewrite length_run_schedule. apply length_replicate. }
  split; [|split].
  - destruct G as (d' & _ & Hsec & _). rewrite Hsec. destruct (locked (_door_lock d')); lia.
  - intros i Hi Hin. destruct G as (d' & Hd' & Hsec & _).
    destruct st as [ps w']. cbn [fst snd] in *.
    rewrite (sched_step_at cfg env self ps w' i AtAcquire Hi),
      (thread_step_focus cfg env self w' d' Hd').
    destruct (locked (_door_lock d')); [|lia].
    cbn [fst snd]. rewrite (focus_same self w' d' Hd'). reflexivity.
  - intros R Z N.
    destruct (race_outcome self _ _ st G R Z ltac:(lia)) as (Hin & Hbusy & Hexit).
    rewrite Len in Hbusy. split; [exact Hin|]. split; [exact Hbusy|].
    intros rest fin Hfin.
    assert (E : fin = run_schedule cfg env self (sched ++ rest) (callers n w)).
    { unfold fin, st. symmetry. apply run_schedule_app. }
    pose proof (gate_inv_run cfg env self n w d (sched ++ rest) Hd L) as G'.
    rewrite <- E in G'.
    assert (Len' : length (fst fin) = n).
    { unfold fin. rewrite length_run_schedule. exact Len. }
    pose proof (count_grows_run cfg env self is_busy_return rest st
                  (fun p w0 => proj1 (thread_step_keeps cfg env self p w0))) as Mb.
    pose proof (count_grows_run cfg env self admitted rest st
                  (fun p w0 => proj1 (proj2 (thread_step_keeps cfg env self p w0)))) as Ma.
    fold fin in Mb, Ma. rewrite !count_admitted in Ma.
    rewrite count_unfinished in Hfin.
    pose proof (count_partition (fst fin)) as Part.
    assert (X : count is_exit (fst fin) = 1%nat) by lia.
    split; [lia|]. split; [exact X|].
    intros F.
    pose proof (cycle_inv_run cfg env self n w d (sched ++ rest) F Hd L) as C'.
    rewrite <- E in C'.
    destruct C' as (Hfl & _ & Hact).
    destruct (count_exists is_exit (fst fin)) as (i & p & Hi & Hp); [lia|].
    pose proof (count_zero faulted _ i p Hfl Hi) as NF.
    destruct p as [ | | | | | | | |[v|e]]; try discriminate.
    split; [eauto|].
    rewrite Hact by (rewrite count_admitted; lia).
    rewrite (flat_map_single _ (fst fin) i (AtExit (Ret v))
               (progress_idle cfg (led_path d)) ltac:(rewrite count_admitted; lia) Hi eq_refl).
    reflexivity.
Qed.

Lemma open_mutual_exclusion_witness :
  let st := run_schedule Sample.cfg Sample.env_ok 0%nat [1; 0; 2; 1]%nat (callers 3 Sample.idle) in
  (count in_section (fst st) <= 1)%nat /\
  (forall i,
     fst st !! i = Some AtAcquire ->
     (1 <= count in_section (fst st))%nat ->
     sched_step Sample.cfg Sample.env_ok 0%nat st i =
       (<[i := AtBusyReturn]> (fst st),
        mkWorld (heap (snd st)) (_door_controller_instance (snd st))
          (trace (snd st) ++ [EvAcquire 0%nat false; EvLog INFO MsgBusy]))) /\
  (releases (trace (snd st)) = releases (trace Sample.idle) ->
   count is_at_acquire (fst st) = 0%nat ->
   (1 <= 3)%nat ->
   count in_section (fst st) = 1%nat /\
   count is_busy_return (fst st) = (3 - 1)%nat /\
   forall rest,
     let fin := run_schedule Sample.cfg Sample.env_ok 0%nat rest st in
     count (fun p => negb (finished p)) (fst fin) = 0%nat ->
     count is_busy_return (fst fin) = (3 - 1)%nat /\
     count is_exit (fst fin) = 1%nat /\
     (fault_free Sample.env_ok ->
      (exists i v, fst fin !! i = Some (AtExit (Ret v))) /\
      activity (trace (snd fin)) =
        activity (trace Sample.idle) ++
        led_skeleton (led_path (Sample.door false false)) 255 ++
        EvSleep (DOOR_OPEN_DURATION Sample.cfg) None ::
        led_skeleton (led_path (Sample.door false false)) 0)).
Proof.
  apply (open_mutual_exclusion Sample.cfg Sample.env_ok 0%nat 3 Sample.idle
           (Sample.door false false) [1; 0; 2; 1]%nat); reflexivity.
Defined.

(** Three callers racing the idle sample gate: the second one to be
    scheduled wins, the two others are turned away while it holds the lock,
    and when it has finished the device has seen 255, the hold, then 0. *)
Example race_of_three :
  let st := run_schedule Sample.cfg Sample.env_ok 0%nat [1; 0; 2; 1]%nat (callers 3 Sample.idle) in
  let fin := run_schedule Sample.cfg Sample.env_ok 0%nat [1; 1; 0; 1; 1; 2; 1]%nat st in
  fst st = [AtBusyReturn; AtSetOpen; AtBusyReturn] /\
  releases (trace (snd st)) = releases (trace Sample.idle) /\
  fst fin = [AtBusyReturn; AtExit (Ret PyNone); AtBusyReturn] /\
  activity (trace (snd fin)) =
    [EvWrite (MkPath Sample.work_led) "255" None; EvSleep 3 None;
     EvWrite (MkPath Sample.work_led) "0" None].
Proof. vm_compute. repeat split. Qed.

(** ** [status] *)

Lemma get_door_controller_first cfg env w a w1 :
  _door_controller_instance w = None ->
  get_door_controller cfg env w = (Ret a, w1) ->
  exists d evs,
    a = length (heap w) /\
    w1 = mkWorld (heap w ++ [Some d]) (Some a) (trace w ++ evs) /\
    status d = false /\ locked (_door_lock d) = false.
Proof.
  intros N G. unfold get_door_controller in G. rewrite N in G.
  revert G. unfold_bind.
  destruct (construct cfg env false w) as (r & d & evs & E & _ & S & L & _).
  assert (A : forall a', r = Ret a' -> a' = length (heap w)).
  { intros a'. revert E. unfold new_DoorController.
    destruct (__init__ cfg env _ false _) as [[v|e] w2]; congruence. }
  rewrite E. destruct r as [a'|e]; [|discriminate].
  unfold set_instance. cbn [heap trace]. intros [= <- <-].
  exists d, evs. rewrite L. repeat split; auto.
Qed.

(** C6 fails on the code: when the hold sleep raises, [open] releases the
    lock and lets the exception through, and [status] stays [True]. *)
Lemma status_after_fault_counterexample :
  fst (open Sample.cfg Sample.env_interrupted 0%nat Sample.idle) = Raise KeyboardInterrupt /\
  heap (snd (open Sample.cfg Sample.env_interrupted 0%nat Sample.idle)) =
    [Some (Sample.door true false)] /\
  status (Sample.door true false) = true.
Proof. vm_compute. repeat split. Qed.

(** C6, amended: [status] is [False] on the controller [get_door_controller]
    creates, and after every admitted [open] that returns; a rejected [open]
    leaves it as it is. While callers of [open] interleave on a gate that
    started idle with [status] [False], [status] is [True] only while some
    thread stands between its assignment [status = True] and its assignment
    [status = False], or once an exception has cut an activation short; with
    no propagating fault, only in the first case. *)
Theorem status_true_only_while_asserted cfg env self :
  (forall w a w1,
     _door_controller_instance w = None ->
     get_door_controller cfg env w = (Ret a, w1) ->
     exists d, heap w1 !! a = Some (Some d) /\ status d = false) /\
  (forall w d,
     heap w !! self = Some (Some d) ->
     locked (_door_lock d) = false ->
     fst (open cfg env self w) = Ret PyNone ->
     heap (snd (open cfg env self w)) !! self = Some (Some (unlocked d false))) /\
  (forall w d,
     heap w !! self = Some (Some d) ->
     locked (_door_lock d) = true ->
     heap (snd (open cfg env self w)) = heap w) /\
  (forall n w d sched d',
     heap w !! self = Some (Some d) ->
     locked (_door_lock d) = false ->
     status d = false ->
     heap (snd (run_schedule cfg env self sched (callers n w))) !! self = Some (Some d') ->
     status d' = true ->
     exists i p,
       fst (run_schedule cfg env self sched (callers n w)) !! i = Some p /\
       (asserted p || faulted p) = true /\
       (fault_free env -> asserted p = true)).
Proof.
  split; [|split; [|split]].
  - intros w a w1 N G.
    destruct (get_door_controller_first cfg env w a w1 N G) as (d & evs & -> & -> & S & _).
    exists d. split; [|exact S]. apply list_lookup_middle. reflexivity.
  - intros w d Hd L R.
    destruct (open_admitted cfg env self w d Hd L) as (r & st & body & P & E).
    rewrite E in R |- *. cbn [fst snd] in *. subst r.
    apply exit_path_sleeps in P as [_ ->].
    apply focus_lookup. eapply lookup_lt_Some. exact Hd.
  - intros w d Hd L. rewrite (open_busy cfg env self w d Hd L). cbn [snd].
    apply focus_heap. exact Hd.
  - intros n w d sched d' Hd L S Hd' S'.
    destruct (status_inv_run cfg env self n w d sched Hd L S d' Hd' S') as (i & p & Hi & Hp).
    exists i, p. split; [exact Hi|]. split; [exact Hp|].
    intros F. destruct (cycle_inv_run cfg env self n w d sched F Hd L) as (Hfl & _).
    rewrite (count_zero faulted _ i p Hfl Hi) in Hp.
    rewrite orb_false_r in Hp. exact Hp.
Qed.

Lemma status_true_only_while_asserted_witness :
  heap (snd (open Sample.cfg Sample.env_denied 0%nat Sample.idle)) !! 0%nat =
    Some (Some (unlocked (Sample.door false false) false)).
Proof.
  apply (proj1 (proj2 (status_true_only_while_asserted Sample.cfg Sample.env_denied 0%nat))
           Sample.idle (Sample.door false false)); reflexivity.
Defined.

(** * Further properties of the gate *)

(** ** No caller ever waits *)

Lemma thread_step_progress cfg env self p w :
  finished p = false ->
  (remaining (fst (thread_step cfg env self p w)) < remaining p)%nat.
Proof.
  destruct p; try discriminate; intros _; cbn [thread_step]; unfold advance;
    repeat match goal with
    | |- context [match ?x with _ => _ end] => destruct x
    end;
    cbn; lia.
Qed.

Lemma thread_step_finished cfg env self p w :
  finished p = true -> thread_step cfg env self p w = (p, w).
Proof. destruct p; try discriminate; reflexivity. Qed.

Lemma remaining_finished p : remaining p = 0%nat -> finished p = true.
Proof. destruct p; cbn; try reflexivity; discriminate. Qed.

Lemma run_schedule_remaining cfg env self sched ps w i p :
  ps !! i = Some p ->
  exists p',
    fst (run_schedule cfg env self sched (ps, w)) !! i = Some p' /\
    (remaining p' <= remaining p - count_occ Nat.eq_dec sched i)%nat.
Proof.
  revert ps w p. induction sched as [|j sched IH]; intros ps w p Hi.
  - exists p. split; [exact Hi | cbn; lia].
  - cbn [run_schedule fold_left].
    assert (Hlen : (i < length ps)%nat) by (eapply lookup_lt_Some; exact Hi).
    destruct (Nat.eq_dec j i) as [->|N];
      [rewrite count_occ_cons_eq by reflexivity | rewrite count_occ_cons_neq by exact N].
    + rewrite (sched_step_at cfg env self ps w i p Hi).
      destruct (IH (<[i := fst (thread_step cfg env self p w)]> ps)
                   (snd (thread_step cfg env self p w))
                   (fst (thread_step cfg env self p w))
                   (list_lookup_insert_eq _ _ _ Hlen)) as (p' & Hp' & R).
      exists p'. split; [exact Hp'|].
      destruct (finished p) eqn:F.
      * rewrite (thread_step_finished cfg env self p w F) in R. cbn [fst] in R.
        assert (remaining p = 0%nat) by (destruct p; try discriminate; reflexivity). lia.
      * pose proof (thread_step_progress cfg env self p w F). lia.
    + destruct (ps !! j) as [q|] eqn:Hj.
      * rewrite (sched_step_at cfg env self ps w j q Hj).
        apply IH. rewrite list_lookup_insert_ne by exact N. exact Hi.
      * rewrite (sched_step_idle cfg env self ps w j Hj). apply IH. exact Hi.
Qed.

(** X1: [open] is wait-free: whatever the other callers do, whatever the state
    of the lock and whatever fails, a caller has returned or raised once it
    has been scheduled seven times. *)
Theorem open_wait_free cfg env self n w sched i :
  (i < n)%nat ->
  (7 <= count_occ Nat.eq_dec sched i)%nat ->
  exists p,
    fst (run_schedule cfg env self sched (callers n w)) !! i = Some p /\
    finished p = true.
Proof.
  intros Hi Hocc.
  destruct (run_schedule_remaining cfg env self sched (replicate n AtAcquire) w i AtAcquire)
    as (p & Hp & R).
  { apply lookup_replicate_2. exact Hi. }
  exists p. split; [exact Hp|]. apply remaining_finished. cbn [remaining] in R. lia.
Qed.

Lemma open_wait_free_witness :
  exists p,
    fst (run_schedule Sample.cfg Sample.env_interrupted 0%nat
           [0; 1; 1; 0; 1; 1; 1; 0; 1; 1]%nat (callers 2 Sample.busy)) !! 1%nat = Some p /\
    finished p = true.
Proof.
  apply (open_wait_free Sample.cfg Sample.env_interrupted 0%nat 2 Sample.busy
           [0; 1; 1; 0; 1; 1; 1; 0; 1; 1]%nat 1%nat); cbn; lia.
Defined.

(** ** The lock during and after a concurrent run *)

(** X2: At every point of every interleaving, with any faults: the lock is held
    exactly when one thread is in the section, the admissions exceed the
    releases by the number of threads in the section, and once all callers
    have finished the lock is free and every admission has been released. *)
Theorem lock_balanced cfg env self n w d sched :
  heap w !! self = Some (Some d) ->
  locked (_door_lock d) = false ->
  exists d',
    heap (snd (run_schedule cfg env self sched (callers n w))) !! self = Some (Some d') /\
    (locked (_door_lock d') = true <->
     count in_section (fst (run_schedule cfg env self sched (callers n w))) = 1%nat) /\
    (admissions (trace (snd (run_schedule cfg env self sched (callers n w)))) +
       releases (trace w) =
     releases (trace (snd (run_schedule cfg env self sched (callers n w)))) +
       admissions (trace w) +
       count in_section (fst (run_schedule cfg env self sched (callers n w))))%nat /\
    (count (fun p => negb (finished p)) (fst (run_schedule cfg env self sched (callers n w))) = 0%nat ->
     locked (_door_lock d') = false /\
     (admissions (trace (snd (run_schedule cfg env self sched (callers n w)))) +
        releases (trace w) =
      releases (trace (snd (run_schedule cfg env self sched (callers n w)))) +
        admissions (trace w))%nat).
Proof.
  intros Hd L.
  destruct (gate_inv_run cfg env self n w d sched Hd L) as (d' & Hd' & Hsec & Hadm & Hrel & _).
  exists d'. split; [exact Hd'|]. split; [|split].
  - rewrite Hsec. destruct (locked (_door_lock d')); split; (reflexivity || discriminate).
  - lia.
  - rewrite count_unfinished. intros Z.
    split; [|lia]. destruct (locked (_door_lock d')); [lia | reflexivity].
Qed.

Lemma lock_balanced_witness :
  exists d',
    heap (snd (run_schedule Sample.cfg Sample.env_interrupted 0%nat [0; 1; 0; 0; 0]%nat
                 (callers 2 Sample.idle))) !! 0%nat = Some (Some d') /\
    (locked (_door_lock d') = true <->
     count in_section (fst (run_schedule Sample.cfg Sample.env_interrupted 0%nat [0; 1; 0; 0; 0]%nat
                              (callers 2 Sample.idle))) = 1%nat) /\
    (admissions (trace (snd (run_schedule Sample.cfg Sample.env_interrupted 0%nat [0; 1; 0; 0; 0]%nat
                               (callers 2 Sample.idle)))) +
       releases (trace Sample.idle) =
     releases (trace (snd (run_schedule Sample.cfg Sample.env_interrupted 0%nat [0; 1; 0; 0; 0]%nat
                             (callers 2 Sample.idle)))) +
       admissions (trace Sample.idle) +
       count in_section (fst (run_schedule Sample.cfg Sample.env_interrupted 0%nat [0; 1; 0; 0; 0]%nat
                                (callers 2 Sample.idle))))%nat /\
    (count (fun p => negb (finished p))
       (fst (run_schedule Sample.cfg Sample.env_interrupted 0%nat [0; 1; 0; 0; 0]%nat
               (callers 2 Sample.idle))) = 0%nat ->
     locked (_door_lock d') = false /\
     (admissions (trace (snd (run_schedule Sample.cfg Sample.env_interrupted 0%nat [0; 1; 0; 0; 0]%nat
                                (callers 2 Sample.idle)))) +
        releases (trace Sample.idle) =
      releases (trace (snd (run_schedule Sample.cfg Sample.env_interrupted 0%nat [0; 1; 0; 0; 0]%nat
                              (callers 2 Sample.idle)))) +
        admissions (trace Sample.idle))%nat).
Proof.
  apply (lock_balanced Sample.cfg Sample.env_interrupted 0%nat 2 Sample.idle
           (Sample.door false false) [0; 1; 0; 0; 0]%nat); reflexivity.
Defined.

(** ** Somebody gets in *)

Lemma busy_needs_admitted_step cfg env self a0 r0 st i :
  gate_inv self a0 r0 st ->
  ((1 <= count is_busy_return (fst st))%nat -> (1 <= count admitted (fst st))%nat) ->
  (1 <= count is_busy_return (fst (sched_step cfg env self st i)))%nat ->
  (1 <= count admitted (fst (sched_step cfg env self st i)))%nat.
Proof.
  intros G IH.
  pose proof (count_grows cfg env self admitted st i
                (fun p w0 => proj1 (proj2 (thread_step_keeps cfg env self p w0)))) as Ma.
  destruct (Nat.eq_dec (count admitted (fst st)) 0%nat) as [Z|NZ]; [|lia].
  assert (B : count is_busy_return (fst st) = 0%nat) by lia.
  destruct G as (d & Hd & Hsec & _). rewrite count_admitted in Z.
  destruct st as [ps w]. cbn [fst snd] in *.
  destruct (ps !! i) as [p|] eqn:Hi.
  2: { rewrite sched_step_idle by exact Hi. cbn [fst]. lia. }
  pose proof (count_zero is_busy_return ps i p B Hi) as NB.
  destruct (locked (_door_lock d)) eqn:L; [lia|].
  step_cases cfg env self w d Hd L p ps i Hi; try discriminate NB;
    match goal with
    | |- context [<[i := ?p']> ps] =>
        pose proof (count_insert is_busy_return ps i _ p' Hi) as C;
        cbn [is_busy_return] in C
    end; lia.
Qed.

(** X3: The gate never turns everybody away: when [n >= 1] callers of an idle
    gate have all finished, under any schedule and any faults, at least one
    of them was admitted; and nobody is ever rejected before somebody was
    admitted. *)
Theorem somebody_is_admitted cfg env self n w d sched :
  heap w !! self = Some (Some d) ->
  locked (_door_lock d) = false ->
  ((1 <= count is_busy_return (fst (run_schedule cfg env self sched (callers n w))))%nat ->
   (1 <= count admitted (fst (run_schedule cfg env self sched (callers n w))))%nat) /\
  ((1 <= n)%nat ->
   count (fun p => negb (finished p)) (fst (run_schedule cfg env self sched (callers n w))) = 0%nat ->
   (1 <= count is_exit (fst (run_schedule cfg env self sched (callers n w))))%nat /\
   (count is_busy_return (fst (run_schedule cfg env self sched (callers n w))) <= n - 1)%nat).
Proof.
  intros Hd L.
  assert (H : gate_inv self (admissions (trace w)) (releases (trace w))
                (run_schedule cfg env self sched (callers n w)) /\
              ((1 <= count is_busy_return (fst (run_schedule cfg env self sched (callers n w))))%nat ->
               (1 <= count admitted (fst (run_schedule cfg env self sched (callers n w))))%nat)).
  { apply run_schedule_ind.
    - intros st i [G B]. split; [apply gate_inv_step; exact G|].
      eapply busy_needs_admitted_step; eassumption.
    - split; [eapply gate_inv_init; eassumption|].
      unfold callers. cbn [fst]. rewrite !count_replicate. cbn. lia. }
  destruct H as [_ B]. split; [exact B|].
  intros N F. rewrite count_unfinished in F. rewrite count_admitted in B.
  pose proof (count_partition (fst (run_schedule cfg env self sched (callers n w)))) as Part.
  rewrite length_run_schedule in Part. unfold callers in Part at 1. cbn [fst] in Part.
  rewrite length_replicate in Part. lia.
Qed.

Lemma somebody_is_admitted_witness :
  ((1 <= count is_busy_return
           (fst (run_schedule Sample.cfg Sample.env_ok 0%nat [1; 0]%nat (callers 2 Sample.idle))))%nat ->
   (1 <= count admitted
           (fst (run_schedule Sample.cfg Sample.env_ok 0%nat [1; 0]%nat (callers 2 Sample.idle))))%nat) /\
  ((1 <= 2)%nat ->
   count (fun p => negb (finished p))
     (fst (run_schedule Sample.cfg Sample.env_ok 0%nat [1; 0]%nat (callers 2 Sample.idle))) = 0%nat ->
   (1 <= count is_exit
           (fst (run_schedule Sample.cfg Sample.env_ok 0%nat [1; 0]%nat (callers 2 Sample.idle))))%nat /\
   (count is_busy_return
      (fst (run_schedule Sample.cfg Sample.env_ok 0%nat [1; 0]%nat (callers 2 Sample.idle))) <= 2 - 1)%nat).
Proof.
  apply (somebody_is_admitted Sample.cfg Sample.env_ok 0%nat 2 Sample.idle
           (Sample.door false false) [1; 0]%nat); reflexivity.
Defined.

(** ** Activations never overlap on the device *)

Lemma flat_map_only (g : pc -> bool) (f : pc -> list event) ps i p :
  (forall q, g q = false -> f q = []) ->
  (count g ps <= 1)%nat ->
  ps !! i = Some p -> g p = true ->
  flat_map f ps = f p.
Proof.
  intros Hf. revert i. induction ps as [|q ps IH]; intros [|i] C H P; try discriminate.
  - injection H as ->. cbn [count flat_map] in *. rewrite P in C.
    assert (Z : count g ps = 0%nat) by (cbv iota in C; lia).
    assert (E : flat_map f ps = []).
    { clear -Z Hf. induction ps as [|x ps IH]; [reflexivity|].
      cbn [count flat_map] in *. destruct (g x) eqn:X; [lia|].
      rewrite (Hf x X), IH by lia. reflexivity. }
    rewrite E. apply app_nil_r.
  - cbn [count flat_map] in *. pose proof (count_pos g ps i p H P).
    destruct (g q) eqn:Q; [lia|].
    rewrite (Hf q Q). cbn [app]. apply (IH i); [lia | exact H | exact P].
Qed.

Lemma flat_map_none (g : pc -> bool) (f : pc -> list event) ps :
  (forall q, g q = false -> f q = []) ->
  count g ps = 0%nat ->
  flat_map f ps = [].
Proof.
  intros Hf. induction ps as [|x ps IH]; [reflexivity|].
  cbn [count flat_map]. intros Z. destruct (g x) eqn:X; [lia|].
  rewrite (Hf x X), IH by lia. reflexivity.
Qed.

Lemma section_progress_idle cfg lp q : in_section q = false -> section_progress cfg lp q = [].
Proof. unfold section_progress. intros ->. reflexivity. Qed.

Lemma concat_replicate_snoc {A} (l : list A) k :
  concat (replicate (k + 1) l) = concat (replicate k l) ++ l.
Proof.
  induction k as [|k IH]; cbn [Nat.add replicate concat].
  - apply app_nil_r.
  - rewrite IH, app_assoc. reflexivity.
Qed.

Lemma serial_inv_step cfg env self lp t0 a0 r0 st i :
  fault_free env ->
  gate_inv self a0 r0 st ->
  serial_inv cfg self lp t0 st -> serial_inv cfg self lp t0 (sched_step cfg env self st i).
Proof.
  intros FF G.
  pose proof (gate_inv_step cfg env self a0 r0 st i G) as G'.
  destruct FF as [Hdev Hsl].
  destruct st as [ps w]. destruct G as (d & Hd & Hsec & _).
  destruct G' as (d2 & _ & Hsec' & _).
  assert (Le : (count in_section ps <= 1)%nat).
  { cbn [fst] in Hsec. rewrite Hsec. destruct (locked (_door_lock d)); lia. }
  assert (Le' : (count in_section (fst (sched_step cfg env self (ps, w) i)) <= 1)%nat).
  { rewrite Hsec'. destruct (locked (_door_lock d2)); lia. }
  clear Hsec' d2.
  intros (Hfl & (d1 & Hd1 & Hlp) & Hact).
  cbn [fst snd] in *. rewrite Hd in Hd1. injection Hd1 as <-. subst lp.
  destruct (ps !! i) as [p|] eqn:Hi.
  2: { rewrite sched_step_idle by exact Hi. repeat split; eauto. }
  pose proof (self_valid self w d Hd) as V.
  assert (Hlen : (i < length ps)%nat) by (eapply lookup_lt_Some; exact Hi).
  pose proof (count_zero faulted ps i p Hfl Hi) as NF.
  revert Le'.
  destruct (locked (_door_lock d)) eqn:L;
    step_cases cfg env self w d Hd L p ps i Hi;
    try discriminate NF;
    repeat match goal with
    | W : (forall n e, write_fault env n = Some e -> _) -> _ |- _ =>
        destruct (W Hdev) as (? & ? & _ & _ & ?); clear W
    end;
    try congruence;
    try (rewrite Hsl in *; discriminate);
    unfold serial_inv; cbn [fst snd];
    count_facts ps i Hi; try lia;
    intros Le';
    (split; [lia|]);
    (split; [eexists; split; [apply focus_lookup; exact V | reflexivity]|]);
    cbn [trace focus];
    rewrite activity_app, Hact; rewrite <- !app_assoc; f_equal;
    first
      [ (* a step outside the section, or one that does not touch the device *)
        replace (count is_exit (<[i := _]> ps)) with (count is_exit ps) by lia;
        rewrite app_nil_r; f_equal; symmetry;
        apply (flat_map_insert_same _ _ _ _ _ Hi); reflexivity
      | (* a step inside the section *)
        replace (count is_exit (<[i := _]> ps)) with (count is_exit ps) by lia;
        f_equal;
        rewrite (flat_map_only in_section _ ps i _ (section_progress_idle cfg (led_path d))
                   Le Hi eq_refl),
          (flat_map_only in_section _ (<[i := _]> ps) i _
             (section_progress_idle cfg (led_path d)) Le'
             (list_lookup_insert_eq _ _ _ Hlen) eq_refl);
        unfold section_progress; cbn [in_section progress];
        repeat match goal with E : (_, _) = (_, _) |- _ => injection E as _ -> end;
        rewrite ?activity_log, ?Hsl;
        repeat match goal with E : activity _ = _ |- _ => rewrite E end;
        rewrite <- ?app_assoc; reflexivity
      | (* the release: the activation is complete *)
        replace (count is_exit (<[i := _]> ps)) with (count is_exit ps + 1)%nat by lia;
        rewrite concat_replicate_snoc, <- app_assoc; f_equal;
        rewrite (flat_map_only in_section _ ps i _ (section_progress_idle cfg (led_path d))
                   Le Hi eq_refl);
        rewrite (flat_map_none in_section _ _ (section_progress_idle cfg (led_path d))) by lia;
        reflexivity ].
Qed.

(** X4: When no fault propagates, under every schedule the device sees whole
    activations one after the other, as many as callers have left the
    section, followed by the part of an activation that the thread now in
    the section has carried out: writes and holds of different callers
    never interleave, and rejected callers contribute nothing. *)
Theorem activations_are_serial cfg env self n w d sched :
  fault_free env ->
  heap w !! self = Some (Some d) ->
  locked (_door_lock d) = false ->
  activity (trace (snd (run_schedule cfg env self sched (callers n w)))) =
    activity (trace w) ++
    concat (replicate (count is_exit (fst (run_schedule cfg env self sched (callers n w))))
              (full_cycle cfg (led_path d))) ++
    flat_map (section_progress cfg (led_path d))
      (fst (run_schedule cfg env self sched (callers n w))) /\
  (count in_section (fst (run_schedule cfg env self sched (callers n w))) = 0%nat ->
   activity (trace (snd (run_schedule cfg env self sched (callers n w)))) =
     activity (trace w) ++
     concat (replicate (count is_exit (fst (run_schedule cfg env self sched (callers n w))))
               (full_cycle cfg (led_path d)))).
Proof.
  intros F Hd L.
  assert (H : gate_inv self (admissions (trace w)) (releases (trace w))
                (run_schedule cfg env self sched (callers n w)) /\
              serial_inv cfg self (led_path d) (trace w)
                (run_schedule cfg env self sched (callers n w))).
  { apply run_schedule_ind.
    - intros st i [G S]. split; [apply gate_inv_step; exact G|].
      eapply serial_inv_step; eassumption.
    - split; [eapply gate_inv_init; eassumption|].
      unfold serial_inv, callers. cbn [fst snd]. rewrite !count_replicate. cbn [faulted is_exit].
      split; [reflexivity|]. split; [eauto|].
      rewrite flat_map_replicate_nil by reflexivity. cbn. rewrite app_nil_r. reflexivity. }
  destruct H as [_ (_ & _ & A)]. split; [exact A|].
  intros Z. rewrite A.
  rewrite (flat_map_none in_section _ _ (section_progress_idle cfg (led_path d)) Z).
  rewrite app_nil_r. reflexivity.
Qed.

Lemma activations_are_serial_witness :
  activity (trace (snd (run_schedule Sample.cfg Sample.env_denied 0%nat
                          [0; 0; 1; 0; 0; 0; 0; 0; 2; 2; 2]%nat (callers 3 Sample.idle)))) =
    activity (trace Sample.idle) ++
    concat (replicate (count is_exit (fst (run_schedule Sample.cfg Sample.env_denied 0%nat
                                             [0; 0; 1; 0; 0; 0; 0; 0; 2; 2; 2]%nat
                                             (callers 3 Sample.idle))))
              (full_cycle Sample.cfg (led_path (Sample.door false false)))) ++
    flat_map (section_progress Sample.cfg (led_path (Sample.door false false)))
      (fst (run_schedule Sample.cfg Sample.env_denied 0%nat
              [0; 0; 1; 0; 0; 0; 0; 0; 2; 2; 2]%nat (callers 3 Sample.idle))) /\
  (count in_section (fst (run_schedule Sample.cfg Sample.env_denied 0%nat
                            [0; 0; 1; 0; 0; 0; 0; 0; 2; 2; 2]%nat (callers 3 Sample.idle))) = 0%nat ->
   activity (trace (snd (run_schedule Sample.cfg Sample.env_denied 0%nat
                           [0; 0; 1; 0; 0; 0; 0; 0; 2; 2; 2]%nat (callers 3 Sample.idle)))) =
     activity (trace Sample.idle) ++
     concat (replicate (count is_exit (fst (run_schedule Sample.cfg Sample.env_denied 0%nat
                                              [0; 0; 1; 0; 0; 0; 0; 0; 2; 2; 2]%nat
                                              (callers 3 Sample.idle))))
               (full_cycle Sample.cfg (led_path (Sample.door false false))))).
Proof.
  apply (activations_are_serial Sample.cfg Sample.env_denied 0%nat 3 Sample.idle
           (Sample.door false false) [0; 0; 1; 0; 0; 0; 0; 0; 2; 2; 2]%nat).
  - split.
    + intros n e H. injection H as <-. reflexivity.
    + reflexivity.
  - reflexivity.
  - reflexivity.
Defined.

(** ** One call after the other *)

Lemma run_calls_cons cfg env self c cs w :
  run_calls cfg env self (c :: cs) w = run_calls cfg env self cs (run_call cfg env self c w).
Proof. reflexivity. Qed.

Lemma exit_path_balance cfg env t lp st0 r st body :
  exit_path cfg env t lp st0 r st body ->
  admissions body = 0%nat /\ releases body = 0%nat.
Proof. intros P. apply no_lock_events. eapply exit_path_no_lock. exact P. Qed.

(** The writes of one complete activation. *)
Lemma exit_path_complete_writes cfg env t lp st0 st body :
  exit_path cfg env t lp st0 (Ret PyNone) st body ->
  writes body =
    match lp with
    | None => []
    | Some p => [(p, "255"%string); (p, "0"%string)]
    end.
Proof.
  intros P. destruct lp as [p|].
  - apply exit_path_writes in P as [P _]. apply P. reflexivity.
  - eapply exit_path_unbound. exact P.
Qed.

Lemma sequential_opens_focus cfg env self w k :
  (self < length (heap w))%nat ->
  forall d evs,
    locked (_door_lock d) = false ->
    exists d' evs',
      run_calls cfg env self (replicate k CallOpen) (focus w self d evs) =
        focus w self d' (evs ++ evs') /\
      locked (_door_lock d') = false /\
      led_path d' = led_path d /\
      admissions evs' = k /\ releases evs' = k /\
      (fault_free env ->
       status d' = match k with O => status d | S _ => false end /\
       sleeps evs' = replicate k (DOOR_OPEN_DURATION cfg) /\
       writes evs' =
         match led_path d with
         | None => []
         | Some p => concat (replicate k [(p, "255"%string); (p, "0"%string)])
         end).
Proof.
  intros V. induction k as [|k IH]; intros d evs L.
  - exists d, []. cbn [replicate run_calls fold_left]. rewrite app_nil_r.
    split; [reflexivity|]. split; [exact L|]. do 3 (split; [reflexivity|]).
    intros _. do 2 (split; [reflexivity|]). destruct (led_path d); reflexivity.
  - cbn [replicate]. rewrite run_calls_cons. cbn [run_call].
    destruct (open_focus_admitted cfg env w self V d evs L) as (r & st & body & P & E).
    rewrite E. cbn [snd].
    destruct (IH (unlocked d st) (evs ++ EvAcquire self true :: body ++ [EvRelease self]) eq_refl)
      as (d' & evs' & E' & L' & P' & A' & R' & F').
    rewrite E'. exists d', ((EvAcquire self true :: body ++ [EvRelease self]) ++ evs').
    destruct (exit_path_balance _ _ _ _ _ _ _ _ P) as [Ab Rb].
    split; [rewrite app_assoc; reflexivity|]. split; [exact L'|]. split; [exact P'|].
    change (EvAcquire self true :: body ++ [EvRelease self])
      with ([EvAcquire self true] ++ body ++ [EvRelease self]).
    split; [|split].
    + rewrite !admissions_app, Ab, A'. reflexivity.
    + rewrite !releases_app, Rb, R'. reflexivity.
    + intros F. destruct (F' F) as (S' & Sl' & W').
      pose proof (exit_path_fault_free _ _ _ _ _ _ _ _ F P) as ->.
      destruct (exit_path_sleeps _ _ _ _ _ _ _ P) as [Sb ->].
      pose proof (exit_path_complete_writes _ _ _ _ _ _ _ P) as Wb.
      split; [|split].
      * destruct k; [exact S' | exact S'].
      * rewrite !sleeps_app, Sb, Sl'. reflexivity.
      * rewrite !writes_app, Wb, W'. cbn [unlocked led_path].
        destruct (led_path d); reflexivity.
Qed.

(** X5: Calls of [open] that follow one another on an idle gate are all
    admitted, each one releasing the lock for the next, whatever fails; and
    when no fault propagates, [k] calls hold [k] times, write 255 then 0 [k]
    times on a bound device and nothing on an unbound one, and leave
    [status] [False]. *)
Theorem sequential_opens_all_admitted cfg env self w d k :
  heap w !! self = Some (Some d) ->
  locked (_door_lock d) = false ->
  exists d' evs,
    run_calls cfg env self (replicate k CallOpen) w =
      mkWorld (<[self := Some d']> (heap w)) (_door_controller_instance w) (trace w ++ evs) /\
    locked (_door_lock d') = false /\
    admissions evs = k /\ releases evs = k /\
    (fault_free env ->
     status d' = match k with O => status d | S _ => false end /\
     sleeps evs = replicate k (DOOR_OPEN_DURATION cfg) /\
     writes evs =
       match led_path d with
       | None => []
       | Some p => concat (replicate k [(p, "255"%string); (p, "0"%string)])
       end).
Proof.
  intros Hd L.
  destruct (sequential_opens_focus cfg env self w k (self_valid self w d Hd) d [] L)
    as (d' & evs & E & L' & _ & A & R & F).
  rewrite (focus_id w self d Hd) in E. exists d', evs.
  split; [exact E|]. auto.
Qed.

Lemma sequential_opens_all_admitted_witness :
  exists d' evs,
    run_calls Sample.cfg Sample.env_denied 0%nat (replicate 2 CallOpen) Sample.idle =
      mkWorld (<[0%nat := Some d']> (heap Sample.idle)) (_door_controller_instance Sample.idle)
        (trace Sample.idle ++ evs) /\
    locked (_door_lock d') = false /\
    admissions evs = 2%nat /\ releases evs = 2%nat /\
    (fault_free Sample.env_denied ->
     status d' = false /\
     sleeps evs = replicate 2 (DOOR_OPEN_DURATION Sample.cfg) /\
     writes evs =
       match led_path (Sample.door false false) with
       | None => []
       | Some p => concat (replicate 2 [(p, "255"%string); (p, "0"%string)])
       end).
Proof.
  apply (sequential_opens_all_admitted Sample.cfg Sample.env_denied 0%nat Sample.idle
           (Sample.door false false) 2); reflexivity.
Defined.

(** ** Without a device *)

(** X6: In simulated mode an admitted [open] keeps its timing: it never writes,
    it sleeps exactly once, for [DOOR_OPEN_DURATION], and only that sleep can
    make it raise; when it returns, [status] is [False] again. *)
Theorem open_simulated_keeps_timing cfg env self w d :
  heap w !! self = Some (Some d) ->
  locked (_door_lock d) = false ->
  led_path d = None ->
  exists r st evs,
    open cfg env self w = (r, focus w self (unlocked d st) evs) /\
    writes evs = [] /\
    sleeps evs = [DOOR_OPEN_DURATION cfg] /\
    match sleep_fault env (length (trace w) + 3) with
    | None => r = Ret PyNone /\ st = false
    | Some e => r = Raise e /\ st = true
    end.
Proof.
  intros Hd L N.
  destruct (open_admitted cfg env self w d Hd L) as (r & st & body & P & E).
  exists r, st, (EvAcquire self true :: body ++ [EvRelease self]). split; [exact E|].
  rewrite N in P.
  assert (Hlen : length ((trace w ++ [EvAcquire self true]) ++
                         EvLog INFO MsgOpen :: [EvLog DEBUG MsgSimulating]) =
                 (length (trace w) + 3)%nat).
  { rewrite !length_app. cbn [length]. lia. }
  change (EvAcquire self true :: body ++ [EvRelease self])
    with ([EvAcquire self true] ++ body ++ [EvRelease self]).
  rewrite !writes_app, !sleeps_app.
  inversion P as [e ev1 E1 | v e ev1 E1 Sf | v e ev1 ev2 E1 Sf E2 | v v' ev1 ev2 E1 Sf E2]; subst;
    cbn [led_events] in *;
    repeat match goal with
    | H : (_, _) = (_, _) |- _ => injection H as ?; subst
    end;
    try discriminate;
    rewrite Hlen in Sf; rewrite Sf; repeat split.
Qed.

Lemma open_simulated_keeps_timing_witness :
  exists r st evs,
    open Sample.cfg_unset Sample.env_ok 0%nat
      (mkWorld [Some (mkDoor true false (mkLock false) None)] None []) =
      (r, focus (mkWorld [Some (mkDoor true false (mkLock false) None)] None []) 0%nat
            (unlocked (mkDoor true false (mkLock false) None) st) evs) /\
    writes evs = [] /\
    sleeps evs = [DOOR_OPEN_DURATION Sample.cfg_unset] /\
    match sleep_fault Sample.env_ok
            (length (trace (mkWorld [Some (mkDoor true false (mkLock false) None)] None [])) + 3) with
    | None => r = Ret PyNone /\ st = false
    | Some e => r = Raise e /\ st = true
    end.
Proof.
  apply (open_simulated_keeps_timing Sample.cfg_unset Sample.env_ok 0%nat
           (mkWorld [Some (mkDoor true false (mkLock false) None)] None [])
           (mkDoor true false (mkLock false) None)); reflexivity.
Defined.

(** ** [_set_led] called directly *)

Lemma set_led_calls_focus env cfg self w bs :
  (self < length (heap w))%nat ->
  (forall n e, write_fault env n = Some e -> is_Exception e = true) ->
  forall d evs,
    exists evs',
      run_calls cfg env self (map CallSetLed bs) (focus w self d evs) =
        focus w self d (evs ++ evs') /\
      writes evs' =
        match led_path d with
        | None => []
        | Some p => map (fun b => (p, py_str (Z.max 0 (Z.min 255 b)))) bs
        end /\
      sleeps evs' = [] /\ admissions evs' = 0%nat /\ releases evs' = 0%nat.
Proof.
  intros V Hdev. induction bs as [|b bs IH]; intros d evs.
  - exists []. cbn [map run_calls fold_left]. rewrite app_nil_r.
    repeat split. destruct (led_path d); reflexivity.
  - cbn [map]. rewrite run_calls_cons. cbn [run_call].
    rewrite (_set_led_focus env w self V b d evs). cbn [snd].
    destruct (IH d (evs ++ (led_events env (trace w ++ evs) (led_path d) b).2))
      as (evs' & E & W & S & A & R).
    rewrite E. exists ((led_events env (trace w ++ evs) (led_path d) b).2 ++ evs').
    split; [rewrite app_assoc; reflexivity|].
    rewrite writes_app, sleeps_app, admissions_app, releases_app.
    rewrite led_events_writes, led_events_sleeps, led_events_admissions, led_events_releases.
    rewrite W, S, A, R. repeat split. destruct (led_path d); reflexivity.
Qed.

(** X7: [_set_led] is not guarded by the lock: called directly, any number of
    times and whether or not the gate is busy, it leaves the controller
    ([status], lock, path) untouched, never sleeps, and on a bound device
    writes the clamped levels in the order of the calls, device errors
    included. *)
Theorem set_led_bypasses_gate cfg env self w d bs :
  heap w !! self = Some (Some d) ->
  (forall n e, write_fault env n = Some e -> is_Exception e = true) ->
  exists evs,
    run_calls cfg env self (map CallSetLed bs) w =
      mkWorld (heap w) (_door_controller_instance w) (trace w ++ evs) /\
    writes evs =
      match led_path d with
      | None => []
      | Some p => map (fun b => (p, py_str (Z.max 0 (Z.min 255 b)))) bs
      end /\
    sleeps evs = [] /\ admissions evs = 0%nat /\ releases evs = 0%nat.
Proof.
  intros Hd Hdev.
  destruct (set_led_calls_focus env cfg self w bs (self_valid self w d Hd) Hdev d [])
    as (evs & E & H).
  rewrite (focus_id w self d Hd) in E. rewrite (focus_same self w d Hd) in E.
  exists evs. split; [exact E | exact H].
Qed.

Lemma set_led_bypasses_gate_witness :
  exists evs,
    run_calls Sample.cfg Sample.env_denied 0%nat (map CallSetLed [255; 128; 50; 0; 300; -1])
      Sample.busy =
      mkWorld (heap Sample.busy) (_door_controller_instance Sample.busy) (trace Sample.busy ++ evs) /\
    writes evs =
      match led_path (Sample.door true true) with
      | None => []
      | Some p => map (fun b => (p, py_str (Z.max 0 (Z.min 255 b)))) [255; 128; 50; 0; 300; -1]
      end /\
    sleeps evs = [] /\ admissions evs = 0%nat /\ releases evs = 0%nat.
Proof.
  apply (set_led_bypasses_gate Sample.cfg Sample.env_denied 0%nat Sample.busy
           (Sample.door true true) [255; 128; 50; 0; 300; -1]).
  - reflexivity.
  - intros n e H. injection H as <-. reflexivity.
Defined.

(** ** One controller among others *)

(** X8: The lock and the state are per instance: method calls on the controller
    at [self] change no other object of the heap, allocate nothing and leave
    the singleton variable alone; they never rebind [led_path] or reset
    [_initialized]; and a lock held on another controller does not keep
    [open] from being admitted on this one. *)
Theorem calls_stay_on_their_instance cfg env self w d cs :
  heap w !! self = Some (Some d) ->
  (forall other, other <> self ->
     heap (run_calls cfg env self cs w) !! other = heap w !! other) /\
  length (heap (run_calls cfg env self cs w)) = length (heap w) /\
  _door_controller_instance (run_calls cfg env self cs w) = _door_controller_instance w /\
  (exists d',
     heap (run_calls cfg env self cs w) !! self = Some (Some d') /\
     led_path d' = led_path d /\ _initialized d' = _initialized d) /\
  (locked (_door_lock d) = false ->
   exists body,
     trace (snd (open cfg env self w)) =
       trace w ++ EvAcquire self true :: body ++ [EvRelease self]).
Proof.
  intros Hd.
  destruct (run_calls_focus cfg env self cs w d Hd) as (d' & evs & E & I & P & _).
  rewrite E. cbn [heap focus _door_controller_instance].
  split; [|split; [|split; [|split]]].
  - intros other N. apply list_lookup_insert_ne. congruence.
  - apply length_insert.
  - reflexivity.
  - exists d'. split; [|split; assumption].
    apply list_lookup_insert_eq. eapply lookup_lt_Some. exact Hd.
  - intros L. destruct (open_admitted cfg env self w d Hd L) as (r & st & body & _ & E').
    rewrite E'. exists body. reflexivity.
Qed.

Lemma calls_stay_on_their_instance_witness :
  (forall other, other <> 1%nat ->
     heap (run_calls Sample.cfg Sample.env_ok 1%nat [CallOpen; CallInit true] Sample.pair) !! other =
       heap Sample.pair !! other) /\
  length (heap (run_calls Sample.cfg Sample.env_ok 1%nat [CallOpen; CallInit true] Sample.pair)) =
    length (heap Sample.pair) /\
  _door_controller_instance (run_calls Sample.cfg Sample.env_ok 1%nat [CallOpen; CallInit true] Sample.pair) =
    _door_controller_instance Sample.pair /\
  (exists d',
     heap (run_calls Sample.cfg Sample.env_ok 1%nat [CallOpen; CallInit true] Sample.pair) !! 1%nat =
       Some (Some d') /\
     led_path d' = led_path (Sample.door false false) /\
     _initialized d' = _initialized (Sample.door false false)) /\
  (locked (_door_lock (Sample.door false false)) = false ->
   exists body,
     trace (snd (open Sample.cfg Sample.env_ok 1%nat Sample.pair)) =
       trace Sample.pair ++ EvAcquire 1%nat true :: body ++ [EvRelease 1%nat]).
Proof.
  apply (calls_stay_on_their_instance Sample.cfg Sample.env_ok 1%nat Sample.pair
           (Sample.door false false) [CallOpen; CallInit true]).
  reflexivity.
Defined.

(** ** When construction is interrupted *)

(** X9: [get_door_controller] sets the singleton only when the constructor
    returns. If the first call raises, the singleton stays unset, and a
    later call that succeeds does not hand out the controller whose
    construction failed: it builds and registers another one, freshly
    initialised with [status] [False] and a free lock. *)
Theorem get_door_controller_failure cfg env w e w1 :
  _door_controller_instance w = None ->
  get_door_controller cfg env w = (Raise e, w1) ->
  _door_controller_instance w1 = None /\
  (forall a w2,
     get_door_controller cfg env w1 = (Ret a, w2) ->
     a <> length (heap w) /\
     _door_controller_instance w2 = Some a /\
     exists d,
       heap w2 !! a = Some (Some d) /\ status d = false /\ locked (_door_lock d) = false).
Proof.
  intros N G. unfold get_door_controller in G. rewrite N in G. revert G. unfold_bind.
  destruct (construct cfg env false w) as (r & d & evs & E & _).
  rewrite E. destruct r as [a|e']; [discriminate|]. intros [= -> <-].
  cbn [_door_controller_instance]. split; [exact N|].
  intros a w2 G2.
  destruct (get_door_controller_first cfg env
              (mkWorld (heap w ++ [Some d]) (_door_controller_instance w) (trace w ++ evs))
              a w2 N G2) as (d2 & evs2 & -> & -> & S2 & L2).
  cbn [heap _door_controller_instance]. split; [|split].
  - rewrite length_app. cbn [length]. lia.
  - reflexivity.
  - exists d2. split; [|split; assumption]. apply list_lookup_middle. reflexivity.
Qed.

Lemma get_door_controller_failure_witness :
  _door_controller_instance
    (snd (get_door_controller Sample.cfg Sample.env_killed_once Sample.empty)) = None /\
  (forall a w2,
     get_door_controller Sample.cfg Sample.env_killed_once
       (snd (get_door_controller Sample.cfg Sample.env_killed_once Sample.empty)) = (Ret a, w2) ->
     a <> length (heap Sample.empty) /\
     _door_controller_instance w2 = Some a /\
     exists d,
       heap w2 !! a = Some (Some d) /\ status d = false /\ locked (_door_lock d) = false).
Proof.
  apply (get_door_controller_failure Sample.cfg Sample.env_killed_once Sample.empty
           KeyboardInterrupt
           (snd (get_door_controller Sample.cfg Sample.env_killed_once Sample.empty)));
    reflexivity.
Defined.

(** The interrupted first call and the retry on the sample configuration:
    the first call raises, the second returns the controller at address 1. *)
Example retry_after_interrupted_construction :
  fst (get_door_controller Sample.cfg Sample.env_killed_once Sample.empty) =
    Raise KeyboardInterrupt /\
  fst (get_door_controller Sample.cfg Sample.env_killed_once
         (snd (get_door_controller Sample.cfg Sample.env_killed_once Sample.empty))) =
    Ret 1%nat.
Proof. vm_compute. split; reflexivity. Qed.

(** ** An empty path *)

(** X10: An empty [LED_SYSFS_PATH] counts as none: whatever the file system
    holds, construction is the one of an unconfigured controller, it
    returns, logs that LED control is disabled and binds no path. *)
Theorem empty_path_is_unconfigured dur env st w :
  new_DoorController (mkConfig dur (Some ""%string)) env st w =
    new_DoorController (mkConfig dur None) env st w /\
  new_DoorController (mkConfig dur (Some ""%string)) env st w =
    (Ret (length (heap w)),
     mkWorld (heap w ++ [Some (mkDoor true st new_Lock None)]) (_door_controller_instance w)
       (trace w ++ [EvLog INFO MsgLedDisabled])).
Proof.
  split; [reflexivity|].
  destruct (construct (mkConfig dur (Some ""%string)) env st w)
    as (r & d & evs & E & I & S & L & C).
  cbn [truthy LED_SYSFS_PATH] in C. destruct C as (-> & P & ->).
  rewrite E. destruct d as [i s l p]. cbn in I, S, L, P. subst. reflexivity.
Qed.

(** ** A thread alone *)

Lemma run_alone_open_witness :
  exists p,
    run_alone Sample.cfg Sample.env_interrupted 0%nat 7 AtAcquire Sample.idle =
      (p, snd (open Sample.cfg Sample.env_interrupted 0%nat Sample.idle)) /\
    finished p = true /\
    match p with
    | AtExit r =>
        r = fst (open Sample.cfg Sample.env_interrupted 0%nat Sample.idle) /\
        locked (_door_lock (Sample.door false false)) = false
    | _ =>
        fst (open Sample.cfg Sample.env_interrupted 0%nat Sample.idle) = Ret PyNone /\
        locked (_door_lock (Sample.door false false)) = true
    end.
Proof.
  apply (run_alone_open Sample.cfg Sample.env_interrupted 0%nat Sample.idle
           (Sample.door false false)).
  reflexivity.
Defined.
